(** * schema_replicator: phased DDL extraction and transactional application

    A shallow embedding of [src/schema_replicator/extractor.py] (class
    [DDLExtractor]) and [src/applier.py] (class [DDLApplier]), followed by the
    properties of the specification that are stated about them.

    The program is a thin layer over SQLAlchemy.  What SQLAlchemy does is not
    part of the repository, so it enters the development in two ways only:
    - reflection of a table from the live catalog and compilation of a DDL
      construct to text are fields of an [Engine] record (they are whatever
      the connected database and its dialect make them);
    - the few schema-object operations the source calls ([Table(...)],
      [Column(...)], [append_column]) are small functions on plain records.

    Python values are modelled as follows: [str] is a list of Unicode code
    points, a raised exception is the [Raise] constructor of [result], the
    [MetaData] registry of an extractor is a finite map from table names to
    tables, and Python [set]s that the source iterates over ([table.indexes],
    [table.constraints]) are lists: the elements in the order in which one
    run happens to iterate them.  That order is no datum of the catalog (the
    elements are hashed by identity); two lists that are permutations of each
    other stand for the same set. *)

From Stdlib Require Import String Ascii.
From stdpp Require Import base tactics option list numbers countable gmap.

Local Open Scope N_scope.

(** ** Python strings *)

Module PyStr.

(** A Python [str]: the sequence of its code points. *)
Abbreviation str := (list N).

(** A literal of the source text, as a [str]. *)
Definition lit (s : string) : str :=
  List.map N_of_ascii (list_ascii_of_string s).

(** [c.isspace()] for a single code point, the table CPython uses for
    [str.strip()] without arguments: U+0009..U+000D, U+001C..U+0020,
    U+0085, U+00A0, U+1680, U+2000..U+200A, U+2028, U+2029, U+202F,
    U+205F and U+3000. *)
Definition isspace (c : N) : bool :=
  ((9 <=? c) && (c <=? 13)) || ((28 <=? c) && (c <=? 32))
  || (c =? 133) || (c =? 160) || (c =? 5760)
  || ((8192 <=? c) && (c <=? 8202))
  || (c =? 8232) || (c =? 8233) || (c =? 8239) || (c =? 8287)
  || (c =? 12288).

Fixpoint lstrip (s : str) : str :=
  match s with
  | [] => []
  | c :: s' => if isspace c then lstrip s' else s
  end.

Definition rstrip (s : str) : str := rev (lstrip (rev s)).

(** [s.strip()] *)
Definition strip (s : str) : str := rstrip (lstrip s).

(** Truth value of a [str] in a condition: non-empty. *)
Definition truth (s : str) : bool :=
  match s with [] => false | _ :: _ => true end.

(** [s[:n]] for a non-negative [n]. *)
Definition slice_to (n : nat) (s : str) : str := take n s.

(** "Empty or whitespace-only", in the words of the specification. *)
Definition whitespace_only (s : str) : Prop :=
  Forall (fun c => isspace c = true) s.

End PyStr.
Import PyStr.

(** ** Raised exceptions *)

Inductive result (E A : Type) : Type :=
| Ok (a : A)
| Raise (e : E).
Arguments Ok {E A} a.
Arguments Raise {E A} e.

#[global] Instance result_ret {E} : MRet (result E) := fun A a => Ok a.

#[global] Instance result_bind {E} : MBind (result E) :=
  fun A B k r =>
    match r with
    | Ok a => k a
    | Raise e => Raise e
    end.

(** [mapM]: run [f] on every element from left to right, stop at the first
    exception. *)
Fixpoint mapM {E A B} (f : A -> result E B) (l : list A) : result E (list B) :=
  match l with
  | [] => Ok []
  | x :: l' => y ← f x; ys ← mapM f l'; Ok (y :: ys)
  end.

(** * The extractor, [src/schema_replicator/extractor.py] *)

Module Extractor.

(** ** Schema objects *)

(** The [autoincrement] argument of a column: [True], [False], ["auto"]
    or ["ignore_fk"]. *)
Inductive Autoincrement := AutoTrue | AutoFalse | AutoAuto | AutoIgnoreFk.

(** An inline [ForeignKey] attached to a column. *)
Record ForeignKey := {
  fk_name : option str;
  fk_colspec : str          (* "customers.id" *)
}.

Record Column := {
  col_name : str;
  col_type : str;
  col_nullable : bool;
  col_primary_key : bool;
  col_autoincrement : Autoincrement;
  col_default : option str;
  col_server_default : option str;
  col_comment : option str;
  col_foreign_keys : list ForeignKey
}.

Record Index := {
  idx_name : option str;
  idx_columns : list str;
  idx_unique : bool
}.

(** The class of a constraint object.  The source imports the first four;
    [OtherConstraint] stands for any further subclass of [Constraint]
    (an [ExcludeConstraint] of the PostgreSQL dialect, say), named by its
    class name. *)
Inductive ConstraintClass :=
| PrimaryKeyConstraint
| ForeignKeyConstraint
| UniqueConstraint
| CheckConstraint
| OtherConstraint (cls : str).

Record Constraint := {
  con_class : ConstraintClass;
  con_name : option str;
  con_columns : list str;
  con_refcolumns : list str;     (* foreign keys: referenced "table.column" *)
  con_sqltext : option str       (* check constraints *)
}.

(** A [Table].  [tbl_indexes] and [tbl_constraints] are Python sets in the
    source; the lists give the order in which [for ... in] visits them in
    the run at hand.  The catalog does not fix that order: a table whose
    lists are permuted is the same table, iterated differently. *)
Record Table := {
  tbl_name : str;
  tbl_columns : list Column;
  tbl_indexes : list Index;
  tbl_constraints : list Constraint
}.

#[global] Instance Index_eq_dec : EqDecision Index.
Proof. solve_decision. Defined.
#[global] Instance ConstraintClass_eq_dec : EqDecision ConstraintClass.
Proof. solve_decision. Defined.
#[global] Instance Constraint_eq_dec : EqDecision Constraint.
Proof. solve_decision. Defined.

(** [isinstance(const, PrimaryKeyConstraint)] *)
Definition isinstance_PrimaryKeyConstraint (const : Constraint) : bool :=
  match con_class const with
  | PrimaryKeyConstraint => true
  | _ => false
  end.

(** ** Exceptions *)

(** [NoSuchTableError] and [CompileError] are SQLAlchemy's, raised by
    reflection and by [compile].  [UnsupportedConstraintKind] is the error
    the specification names for the phase split; the source has no [raise]
    statement, so no definition below builds it. *)
Inductive exn :=
| NoSuchTableError (table_name : str)
| CompileError (msg : str)
| UnsupportedConstraintKind (kind : str).

Definition is_UnsupportedConstraintKind {A} (r : result exn A) : bool :=
  match r with
  | Raise (UnsupportedConstraintKind _) => true
  | _ => false
  end.

(** ** The engine: live catalog and dialect compiler *)

Record Engine := {
  (** Reflection of the named table ([autoload_with=engine]).  The first
      argument is the [Table] object already registered under that name
      when reflection extends it ([extend_existing=True]), [None] when a
      fresh object is filled.  [None] as a result is [NoSuchTableError]. *)
  autoload : option Table -> str -> option Table;
  (** [str(CreateTable(t).compile(engine, literal_binds))]: the text, or
      the message of the [CompileError]. *)
  compile_CreateTable : Table -> result str str;
  (** [str(CreateIndex(index).compile(engine))] for an index of the table
      of the given name. *)
  compile_CreateIndex : str -> Index -> result str str;
  (** [str(AddConstraint(const).compile(engine))], likewise. *)
  compile_AddConstraint : str -> Constraint -> result str str
}.

(** A compiler failure as the exception the caller sees. *)
Definition compiled (r : result str str) : result exn str :=
  match r with
  | Ok text => Ok text
  | Raise msg => Raise (CompileError msg)
  end.

(** ** [DDLExtractor] *)

(** [self.engine] and [self.metadata]; [self.inspector] is never read. *)
Record DDLExtractor := {
  engine : Engine;
  metadata : gmap str Table
}.

(** [DDLExtractor(engine)] *)
Definition init (e : Engine) : DDLExtractor :=
  {| engine := e; metadata := ∅ |}.

Definition set_metadata (self : DDLExtractor) (m : gmap str Table)
  : DDLExtractor :=
  {| engine := engine self; metadata := m |}.

(** [Table(table_name, self.metadata, autoload_with=self.engine,
    extend_existing=...)].  A table already registered in the metadata is
    returned as it is, unless [extend_existing] asks for reflection to run
    again on it; a table not yet registered is reflected and registered.
    When reflection fails nothing is registered.  (Reflection also registers
    the tables that foreign keys refer to; entries under other names are
    not followed here.) *)
Definition Table_autoload (extend_existing : bool) (table_name : str)
    (self : DDLExtractor) : result exn Table * DDLExtractor :=
  match metadata self !! table_name with
  | Some existing =>
      if extend_existing then
        match autoload (engine self) (Some existing) table_name with
        | Some t => (Ok t, set_metadata self (<[table_name := t]> (metadata self)))
        | None => (Raise (NoSuchTableError table_name), self)
        end
      else (Ok existing, self)
  | None =>
      match autoload (engine self) None table_name with
      | Some t => (Ok t, set_metadata self (<[table_name := t]> (metadata self)))
      | None => (Raise (NoSuchTableError table_name), self)
      end
  end.

(** *** Building the clean table *)

(** The primary-key constraint every [Table] object owns from its
    creation; its columns are those appended with [primary_key=True]. *)
Definition implicit_primary_key (cols : list str) : Constraint :=
  {| con_class := PrimaryKeyConstraint; con_name := None;
     con_columns := cols; con_refcolumns := []; con_sqltext := None |}.

(** [Table(table_name, clean_metadata)]: no columns yet. *)
Definition Table_new (table_name : str) : Table :=
  {| tbl_name := table_name; tbl_columns := []; tbl_indexes := [];
     tbl_constraints := [implicit_primary_key []] |}.

Definition add_primary_key_column (name : str) (c : Constraint) : Constraint :=
  match con_class c with
  | PrimaryKeyConstraint =>
      {| con_class := con_class c; con_name := con_name c;
         con_columns := con_columns c ++ [name];
         con_refcolumns := con_refcolumns c; con_sqltext := con_sqltext c |}
  | _ => c
  end.

(** The table-level constraint an inline foreign key of a column becomes
    when the column is attached to a table. *)
Definition foreign_key_constraint (c : Column) (fk : ForeignKey) : Constraint :=
  {| con_class := ForeignKeyConstraint; con_name := fk_name fk;
     con_columns := [col_name c]; con_refcolumns := [fk_colspec fk];
     con_sqltext := None |}.

(** [t.append_column(c)]: the column joins the table, joins the primary
    key when it is flagged, and brings its foreign keys along as
    table-level constraints.  (Column names of a reflected table are
    pairwise distinct, so the loop of the source never appends a name
    twice.) *)
Definition append_column (t : Table) (c : Column) : Table :=
  {| tbl_name := tbl_name t;
     tbl_columns := tbl_columns t ++ [c];
     tbl_indexes := tbl_indexes t;
     tbl_constraints :=
       (if col_primary_key c
        then List.map (add_primary_key_column (col_name c)) (tbl_constraints t)
        else tbl_constraints t)
       ++ List.map (foreign_key_constraint c) (col_foreign_keys c) |}.

(** [Column(col.name, col.type, nullable=..., primary_key=...,
    autoincrement=..., default=..., server_default=..., comment=...)],
    extractor.py lines 50-60: [foreign_keys] is not passed. *)
Definition new_col (col : Column) : Column :=
  {| col_name := col_name col;
     col_type := col_type col;
     col_nullable := col_nullable col;
     col_primary_key := col_primary_key col;
     col_autoincrement := col_autoincrement col;
     col_default := col_default col;
     col_server_default := col_server_default col;
     col_comment := col_comment col;
     col_foreign_keys := [] |}.

(** The value of [clean_table] when the loop of lines 34-62 is over. *)
Definition clean_table (table_name : str) (table : Table) : Table :=
  fold_left (fun clean col => append_column clean (new_col col))
            (tbl_columns table) (Table_new table_name).

(** [get_table_base_ddl(self, table_name)], lines 13-66. *)
Definition get_table_base_ddl (table_name : str) (self : DDLExtractor)
  : result exn str * DDLExtractor :=
  let '(loaded, self') := Table_autoload false table_name self in
  (table ← loaded;
   ddl ← compiled (compile_CreateTable (engine self) (clean_table table_name table));
   Ok (strip ddl ++ lit ";"),
   self').

(** *** The deferred statements *)

(** Lines 77-80: [for index in table.indexes]. *)
Fixpoint for_index (e : Engine) (table : Table) (indexes : list Index)
    (ddl_statements : list str) : result exn (list str) :=
  match indexes with
  | [] => Ok ddl_statements
  | index :: rest =>
      stmt ← compiled (compile_CreateIndex e (tbl_name table) index);
      for_index e table rest (ddl_statements ++ [stmt ++ lit ";"])
  end.

(** Lines 95-106: [for const in table.constraints]. *)
Fixpoint for_const (e : Engine) (table : Table) (constraints : list Constraint)
    (ddl_statements : list str) : result exn (list str) :=
  match constraints with
  | [] => Ok ddl_statements
  | const :: rest =>
      if isinstance_PrimaryKeyConstraint const then
        for_const e table rest ddl_statements              (* continue *)
      else
        stmt ← compiled (compile_AddConstraint e (tbl_name table) const);
        for_const e table rest (ddl_statements ++ [stmt ++ lit ";"])
  end.

(** The value of [ddl_statements] at the [return] of line 108, for the
    reflected [table]. *)
Definition ddl_statements (e : Engine) (table : Table)
  : result exn (list str) :=
  after_indexes ← for_index e table (tbl_indexes table) [];
  for_const e table (tbl_constraints table) after_indexes.

(** [get_constraints_and_indexes_ddl(self, table_name)], lines 68-108. *)
Definition get_constraints_and_indexes_ddl (table_name : str)
    (self : DDLExtractor) : result exn (list str) * DDLExtractor :=
  let '(loaded, self') := Table_autoload true table_name self in
  (table ← loaded; ddl_statements (engine self) table, self').

(** ** The elements of phase 2

    What the statements of phase 2 are made from: an index or a
    constraint of the reflected table, and the statement the source
    builds for it ([str(stmt) + ";"], lines 79-80 and 105-106). *)

Inductive Element :=
| IndexElement (index : Index)
| ConstraintElement (const : Constraint).

#[global] Instance Element_eq_dec : EqDecision Element.
Proof. solve_decision. Defined.

Definition statement (e : Engine) (table : Table) (x : Element)
  : result exn str :=
  match x with
  | IndexElement index =>
      stmt ← compiled (compile_CreateIndex e (tbl_name table) index);
      Ok (stmt ++ lit ";")
  | ConstraintElement const =>
      stmt ← compiled (compile_AddConstraint e (tbl_name table) const);
      Ok (stmt ++ lit ";")
  end.

(** A constraint that is left to phase 2: any but a primary key. *)
Definition deferred (const : Constraint) : bool :=
  negb (isinstance_PrimaryKeyConstraint const).

(** The four constraint kinds of the specification's ConstraintDescriptor:
    Primary-Key, Foreign-Key, Unique and Check. *)
Definition specified_kind (k : ConstraintClass) : bool :=
  match k with
  | PrimaryKeyConstraint | ForeignKeyConstraint
  | UniqueConstraint | CheckConstraint => true
  | OtherConstraint _ => false
  end.

(** How many constraints of a class a table has. *)
Definition count_class (k : ConstraintClass) (t : Table) : nat :=
  length (List.filter (fun c => bool_decide (con_class c = k)) (tbl_constraints t)).

(** A column without its inline foreign keys, and the table without any
    foreign-key information: no inline foreign key on a column, no
    foreign-key constraint. *)
Definition detached (c : Column) : Column :=
  {| col_name := col_name c; col_type := col_type c;
     col_nullable := col_nullable c; col_primary_key := col_primary_key c;
     col_autoincrement := col_autoincrement c; col_default := col_default c;
     col_server_default := col_server_default c; col_comment := col_comment c;
     col_foreign_keys := [] |}.

Definition without_foreign_keys (t : Table) : Table :=
  {| tbl_name := tbl_name t;
     tbl_columns := List.map detached (tbl_columns t);
     tbl_indexes := tbl_indexes t;
     tbl_constraints :=
       List.filter (fun c => negb (bool_decide (con_class c = ForeignKeyConstraint)))
                   (tbl_constraints t) |}.

End Extractor.

(** * The applier, [src/applier.py] *)

Module Applier.

(** One record of the module's [logger]. *)
Inductive LogRecord :=
| INFO (msg : str)
| ERROR (msg : str).

(** What the call does to the connection, in order. *)
Inductive Event :=
| Connect                 (* engine.connect() *)
| Begin                   (* conn.begin() *)
| Execute (stmt : str)    (* conn.execute(text(stmt)), attempted *)
| Commit                  (* normal exit of the [with conn.begin()] block *)
| Rollback                (* exit of that block by an exception *)
| Close.                  (* exit of the [with engine.connect()] block *)

Section WithTarget.

(** The states of the target database, and the exceptions that
    executing a statement can raise: the instances of [Exception], which
    line 25 catches (an interrupt of the interpreter is not one). *)
Context {DB Exn : Type}.

Record Engine := {
  (** [conn.execute(text(stmt))] in the open transaction: the next
      database state, or the exception raised (the state is then the
      one before the statement). *)
  execute : str -> DB -> result Exn DB;
  (** Whether a rollback undoes DDL on this target. *)
  transactional_ddl : bool;
  (** [str(e)], as the f-string of line 26 formats it. *)
  exn_str : Exn -> str
}.

(** Everything the call acts on: the database, the log, the
    connection events so far. *)
Record World := {
  database : DB;
  log : list LogRecord;
  trace : list Event
}.

Definition logger_info (msg : str) (w : World) : World :=
  {| database := database w; log := log w ++ [INFO msg]; trace := trace w |}.

Definition logger_error (msg : str) (w : World) : World :=
  {| database := database w; log := log w ++ [ERROR msg]; trace := trace w |}.

Definition emit (ev : Event) (w : World) : World :=
  {| database := database w; log := log w; trace := trace w ++ [ev] |}.

Definition set_database (db : DB) (w : World) : World :=
  {| database := db; log := log w; trace := trace w |}.

(** f"Executing DDL: {stmt[:50]}..." *)
Definition info_message (stmt : str) : str :=
  lit "Executing DDL: " ++ slice_to 50 stmt ++ lit "...".

(** f"Error executing DDL: {stmt}\nError: {e}" *)
Definition error_message (eng : Engine) (stmt : str) (e : Exn) : str :=
  lit "Error executing DDL: " ++ stmt ++ [10] ++ lit "Error: " ++ exn_str eng e.

(** Lines 18-27: [for stmt in ddl_statements]. *)
Fixpoint for_stmt (eng : Engine) (ddl_statements : list str) (w : World)
  : result Exn unit * World :=
  match ddl_statements with
  | [] => (Ok tt, w)
  | stmt :: rest =>
      if negb (truth (strip stmt)) then
        for_stmt eng rest w                                  (* continue *)
      else
        let w := logger_info (info_message stmt) w in
        let w := emit (Execute stmt) w in
        match execute eng stmt (database w) with
        | Ok db => for_stmt eng rest (set_database db w)
        | Raise e =>
            (Raise e, logger_error (error_message eng stmt e) w)   (* raise e *)
        end
  end.

(** The state in which the loop starts: connected, in a transaction,
    nothing logged by this call yet. *)
Definition opened (db : DB) : World :=
  {| database := db; log := []; trace := [Connect; Begin] |}.

(** [apply_ddl(self, ddl_statements)], lines 12-27, on a target whose
    database is in state [db]: the two [with] blocks around the loop, for
    an engine whose [connect()], [begin()] and commit do not raise.  The
    call with these three able to raise is [DDLApplier.apply_ddl] below. *)
Definition apply_ddl (eng : Engine) (ddl_statements : list str) (db : DB)
  : result Exn unit * World :=
  match for_stmt eng ddl_statements (opened db) with
  | (Ok tt, w) => (Ok tt, emit Close (emit Commit w))
  | (Raise e, w) =>
      let undone := if transactional_ddl eng then db else database w in
      (Raise e, emit Close (emit Rollback (set_database undone w)))
  end.

(** The entries the loop does not skip. *)
Definition nonblank (stmts : list str) : list str :=
  List.filter (fun stmt => truth (strip stmt)) stmts.

(** The statements handed to [conn.execute], in order. *)
Fixpoint attempted (tr : list Event) : list str :=
  match tr with
  | [] => []
  | Execute stmt :: tr' => stmt :: attempted tr'
  | _ :: tr' => attempted tr'
  end.

(** The statements announced by an INFO record, as logged. *)
Fixpoint announced (l : list LogRecord) : list str :=
  match l with
  | [] => []
  | INFO msg :: l' => msg :: announced l'
  | ERROR _ :: l' => announced l'
  end.

End WithTarget.

Arguments Engine : clear implicits.
Arguments World : clear implicits.

End Applier.

(** ** The connection scope

    [engine.connect()], [conn.begin()] and the commit at the end of the
    [with] block of line 17 can raise too; the source catches none of these.
    A transaction leaves its block by a commit that, when it raises, is
    followed by a rollback. *)

Module DDLApplier.
Import Applier.

Section WithTarget.
Context {DB Exn : Type}.

(** [self.engine]: the target, and the exception, if any, with which
    opening a connection, beginning a transaction and committing one (on
    the database state reached) fail. *)
Record Engine := {
  target : Applier.Engine DB Exn;
  connect_raises : option Exn;
  begin_raises : option Exn;
  commit_raises : DB -> option Exn
}.

(** [apply_ddl(self, ddl_statements)], lines 12-27. *)
Definition apply_ddl (self : Engine) (ddl_statements : list str) (db : DB)
  : result Exn unit * World DB :=
  match connect_raises self with
  | Some e =>                                   (* line 16 raises *)
      (Raise e, {| database := db; log := []; trace := [] |})
  | None =>
      match begin_raises self with
      | Some e =>                               (* line 17 raises *)
          (Raise e, {| database := db; log := []; trace := [Connect; Close] |})
      | None =>
          match for_stmt (target self) ddl_statements (opened db) with
          | (Ok tt, w) =>
              match commit_raises self (database w) with
              | Some e =>
                  let undone :=
                    if transactional_ddl (target self) then db else database w in
                  (Raise e, emit Close (emit Rollback (set_database undone w)))
              | None => (Ok tt, emit Close (emit Commit w))
              end
          | (Raise e, w) =>
              let undone :=
                if transactional_ddl (target self) then db else database w in
              (Raise e, emit Close (emit Rollback (set_database undone w)))
          end
      end
  end.

End WithTarget.

Arguments Engine : clear implicits.

End DDLApplier.

(** ** The errors of a SQLAlchemy connection

    [conn.execute(text(stmt))] runs the statement on the driver of the
    database; what the driver raises reaches the caller of [execute] as a
    [DBAPIError], which holds the statement ([.statement]) and the
    driver's error ([.orig]). *)

Module DBAPI.
Import Applier.

Record DBAPIError (Cause : Type) := {
  statement : str;
  orig : Cause
}.
Arguments statement {Cause} _.
Arguments orig {Cause} _.

Definition Connection_execute {DB Cause : Type}
    (driver : str -> DB -> result Cause DB) (stmt : str) (db : DB)
  : result (DBAPIError Cause) DB :=
  match driver stmt db with
  | Ok db' => Ok db'
  | Raise cause => Raise {| statement := stmt; orig := cause |}
  end.

(** An engine over a driver; [str(e)] of a [DBAPIError] shows the driver's
    error and then the statement. *)
Definition engine_over {DB Cause : Type} (driver : str -> DB -> result Cause DB)
    (transactional : bool) (describe : Cause -> str)
  : Applier.Engine DB (DBAPIError Cause) :=
  {| execute := Connection_execute driver;
     transactional_ddl := transactional;
     exn_str := fun e =>
       describe (orig e) ++ [10] ++ lit "[SQL: " ++ statement e ++ lit "]" |}.

End DBAPI.

(** * A concrete catalog and dialect

    The [orders] table of the specification's end-to-end scenario, two
    further tables, and a small dialect that prints DDL in the usual shape
    (text that begins and ends with newlines for CREATE TABLE, as
    SQLAlchemy's does).  They make the statements below checkable by
    evaluation. *)

Module Example.
Import Extractor.

Fixpoint join (sep : str) (l : list str) : str :=
  match l with
  | [] => []
  | [x] => x
  | x :: l' => x ++ sep ++ join sep l'
  end.

Definition column (name type : string) (pk nullable : bool)
    (server_default : option str) (fks : list ForeignKey) : Column :=
  {| col_name := lit name; col_type := lit type; col_nullable := nullable;
     col_primary_key := pk;
     col_autoincrement := if pk then AutoTrue else AutoAuto;
     col_default := None; col_server_default := server_default;
     col_comment := None; col_foreign_keys := fks |}.

Definition customers_id : ForeignKey :=
  {| fk_name := Some (lit "fk_orders_customer"); fk_colspec := lit "customers.id" |}.

Definition primary_key_of (cols : list string) : Constraint :=
  implicit_primary_key (List.map lit cols).

Definition fk_orders_customer : Constraint :=
  {| con_class := ForeignKeyConstraint; con_name := Some (lit "fk_orders_customer");
     con_columns := [lit "customer_id"]; con_refcolumns := [lit "customers.id"];
     con_sqltext := None |}.

Definition uq_orders_id : Constraint :=
  {| con_class := UniqueConstraint; con_name := Some (lit "uq_orders_id");
     con_columns := [lit "id"]; con_refcolumns := []; con_sqltext := None |}.

Definition ix_orders_customer_id : Index :=
  {| idx_name := Some (lit "ix_orders_customer_id");
     idx_columns := [lit "customer_id"]; idx_unique := false |}.

Definition orders : Table :=
  {| tbl_name := lit "orders";
     tbl_columns :=
       [ column "id" "INTEGER" true false None [];
         column "customer_id" "INTEGER" false true None [customers_id];
         column "total" "NUMERIC" false false (Some (lit "0")) [] ];
     tbl_indexes := [ix_orders_customer_id];
     tbl_constraints := [primary_key_of ["id"%string]; fk_orders_customer; uq_orders_id] |}.

(** A table with a primary key and nothing to defer. *)
Definition customers : Table :=
  {| tbl_name := lit "customers";
     tbl_columns :=
       [ column "id" "INTEGER" true false None [];
         column "name" "VARCHAR" false false None [] ];
     tbl_indexes := [];
     tbl_constraints := [primary_key_of ["id"%string]] |}.

(** A table with a constraint of a fifth class. *)
Definition no_overlap : Constraint :=
  {| con_class := OtherConstraint (lit "ExcludeConstraint");
     con_name := Some (lit "no_overlap");
     con_columns := [lit "room"; lit "during"]; con_refcolumns := [];
     con_sqltext := None |}.

Definition bookings : Table :=
  {| tbl_name := lit "bookings";
     tbl_columns :=
       [ column "room" "INTEGER" false false None [];
         column "during" "TSRANGE" false false None [] ];
     tbl_indexes := [];
     tbl_constraints := [primary_key_of []; no_overlap] |}.

(** What reflection finds of [bookings] in the catalog: reflection builds
    primary-key, foreign-key, unique and check constraints only, so the
    exclusion constraint is on the table an application declares, not on
    the one reflection fills. *)
Definition bookings_reflected : Table :=
  {| tbl_name := lit "bookings";
     tbl_columns := tbl_columns bookings;
     tbl_indexes := [];
     tbl_constraints := [primary_key_of []] |}.

(** [orders], with its two sets iterated in another order. *)
Definition orders_rehashed : Table :=
  {| tbl_name := lit "orders";
     tbl_columns := tbl_columns orders;
     tbl_indexes := [ix_orders_customer_id];
     tbl_constraints := [uq_orders_id; fk_orders_customer; primary_key_of ["id"%string]] |}.

Definition catalog : list Table := [orders; customers; bookings_reflected].

(** Reflection onto a table that is registered already
    ([extend_existing=True]): the columns are replaced, and with them the
    foreign keys; the primary key is reloaded; the indexes, unique and
    check constraints found are added to those the table has, which stay,
    like any other constraint declared on it. *)
Definition reflect_onto (existing fresh : Table) : Table :=
  {| tbl_name := tbl_name fresh;
     tbl_columns := tbl_columns fresh;
     tbl_indexes := tbl_indexes existing ++ tbl_indexes fresh;
     tbl_constraints :=
       List.filter isinstance_PrimaryKeyConstraint (tbl_constraints fresh)
       ++ List.filter
            (fun c => negb (isinstance_PrimaryKeyConstraint c)
                      && negb (bool_decide (con_class c = ForeignKeyConstraint)))
            (tbl_constraints existing)
       ++ List.filter deferred (tbl_constraints fresh) |}.

Definition parens (s : str) : str := lit "(" ++ s ++ lit ")".

Definition column_spec (c : Column) : str :=
  col_name c ++ lit " " ++ col_type c
  ++ (if col_nullable c then [] else lit " NOT NULL")
  ++ match col_server_default c with
     | Some d => lit " DEFAULT " ++ d
     | None => []
     end.

Definition named (c : Constraint) : str :=
  match con_name c with
  | Some n => lit "CONSTRAINT " ++ n ++ lit " "
  | None => []
  end.

(** The body of a constraint; [None] when there is nothing to print. *)
Definition constraint_spec (c : Constraint) : option str :=
  match con_class c with
  | PrimaryKeyConstraint =>
      match con_columns c with
      | [] => None
      | cols => Some (named c ++ lit "PRIMARY KEY " ++ parens (join (lit ", ") cols))
      end
  | ForeignKeyConstraint =>
      Some (named c ++ lit "FOREIGN KEY" ++ parens (join (lit ", ") (con_columns c))
            ++ lit " REFERENCES " ++ join (lit ", ") (con_refcolumns c))
  | UniqueConstraint =>
      Some (named c ++ lit "UNIQUE " ++ parens (join (lit ", ") (con_columns c)))
  | CheckConstraint =>
      Some (named c ++ lit "CHECK " ++ parens (default [] (con_sqltext c)))
  | OtherConstraint cls =>
      if decide (cls = lit "ExcludeConstraint")
      then Some (named c ++ lit "EXCLUDE " ++ parens (join (lit ", ") (con_columns c)))
      else None
  end.

Definition toy_engine : Engine :=
  {| autoload := fun existing name =>
       match List.find (fun t => bool_decide (tbl_name t = name)) catalog with
       | Some fresh =>
           Some (match existing with
                 | Some t => reflect_onto t fresh
                 | None => fresh
                 end)
       | None => None
       end;
     compile_CreateTable := fun t =>
       Ok ([10] ++ lit "CREATE TABLE " ++ tbl_name t ++ lit " "
           ++ parens (join (lit ", ")
                (List.map column_spec (tbl_columns t)
                 ++ omap constraint_spec (tbl_constraints t)))
           ++ [10; 10]);
     compile_CreateIndex := fun table_name i =>
       match idx_name i with
       | Some n =>
           Ok (lit "CREATE " ++ (if idx_unique i then lit "UNIQUE " else [])
               ++ lit "INDEX " ++ n ++ lit " ON " ++ table_name ++ lit " "
               ++ parens (join (lit ", ") (idx_columns i)))
       | None => Raise (lit "index has no name")
       end;
     compile_AddConstraint := fun table_name c =>
       match constraint_spec c with
       | Some body => Ok (lit "ALTER TABLE " ++ table_name ++ lit " ADD " ++ body)
       | None => Raise (lit "cannot compile constraint")
       end |}.

(** A target database for the applier: the names of the tables created so
    far.  [CREATE <name>] succeeds once per name, anything else is an
    error whose text does not mention the statement. *)
Definition toy_target (transactional : bool) : Applier.Engine (list str) str :=
  {| Applier.execute := fun stmt db =>
       match stmt with
       | 67 :: 82 :: 69 :: 65 :: 84 :: 69 :: 32 :: name =>      (* "CREATE " *)
           if bool_decide (name ∈ db)
           then Raise (lit "relation already exists")
           else Ok (db ++ [name])
       | _ => Raise (lit "syntax error")
       end;
     Applier.transactional_ddl := transactional;
     Applier.exn_str := fun e => e |}.

(** An extractor on whose metadata the application has declared
    [bookings], exclusion constraint included. *)
Definition declared_bookings : DDLExtractor :=
  {| engine := toy_engine; metadata := <[lit "bookings" := bookings]> ∅ |}.

(** A driver: [toy_target] without the wrapping of its errors, which are
    the messages of the database. *)
Definition toy_driver : str -> list str -> result str (list str) :=
  Applier.execute (toy_target true).

(** An engine whose database cannot be reached, and one whose connection
    scope works. *)
Definition unreachable : DDLApplier.Engine (list str) str :=
  {| DDLApplier.target := toy_target true;
     DDLApplier.connect_raises := Some (lit "connection refused");
     DDLApplier.begin_raises := None;
     DDLApplier.commit_raises := fun _ => None |}.

Definition reachable : DDLApplier.Engine (list str) str :=
  {| DDLApplier.target := toy_target true;
     DDLApplier.connect_raises := None;
     DDLApplier.begin_raises := None;
     DDLApplier.commit_raises := fun _ => None |}.

End Example.

(** * Further definitions used by the properties below *)

Module Reference.
Import Applier.

(** The statements executed one after the other on the database, the way
    line 24 threads them through one connection; the first exception
    ends the run. *)
Fixpoint execute_all {DB Exn : Type} (eng : Engine DB Exn) (stmts : list str)
    (db : DB) : result Exn DB :=
  match stmts with
  | [] => Ok db
  | stmt :: rest =>
      match execute eng stmt db with
      | Ok db' => execute_all eng rest db'
      | Raise e => Raise e
      end
  end.

(** The first and the last code point of a string are not whitespace
    (nothing is asked of the empty string). *)
Definition trimmed (s : str) : Prop :=
  match head s with Some c => isspace c = false | None => True end
  /\ match last s with Some c => isspace c = false | None => True end.

End Reference.

Module MoreExamples.
Import Extractor Example.

(** A table whose second index the toy dialect cannot compile (it has no
    name), followed by a constraint it can. *)
Definition ix_events_day : Index :=
  {| idx_name := Some (lit "ix_events_day"); idx_columns := [lit "day"];
     idx_unique := false |}.

Definition unnamed_index : Index :=
  {| idx_name := None; idx_columns := [lit "room"]; idx_unique := false |}.

Definition ck_events_day : Constraint :=
  {| con_class := CheckConstraint; con_name := Some (lit "ck_events_day");
     con_columns := []; con_refcolumns := []; con_sqltext := Some (lit "day > 0") |}.

Definition events : Table :=
  {| tbl_name := lit "events";
     tbl_columns :=
       [ column "day" "INTEGER" false false None [];
         column "room" "INTEGER" false false None [] ];
     tbl_indexes := [ix_events_day; unnamed_index];
     tbl_constraints := [primary_key_of []; ck_events_day] |}.

(** The toy dialect, except that it refuses to add a primary key. *)
Definition strict_engine : Engine :=
  {| autoload := autoload toy_engine;
     compile_CreateTable := compile_CreateTable toy_engine;
     compile_CreateIndex := compile_CreateIndex toy_engine;
     compile_AddConstraint := fun table_name c =>
       if isinstance_PrimaryKeyConstraint c
       then Raise (lit "primary key already defined")
       else compile_AddConstraint toy_engine table_name c |}.

(** An engine whose catalog has lost every table. *)
Definition emptied_engine : Engine :=
  {| autoload := fun _ _ => None;
     compile_CreateTable := compile_CreateTable toy_engine;
     compile_CreateIndex := compile_CreateIndex toy_engine;
     compile_AddConstraint := compile_AddConstraint toy_engine |}.

End MoreExamples.

(** * Properties of Python strings and of exception-aware iteration *)

Section Strings.

Lemma lstrip_nil_iff (s : str) :
  lstrip s = [] <-> whitespace_only s.
Proof.
  unfold whitespace_only. induction s as [|c s IH]; simpl.
  - split; [constructor | reflexivity].
  - destruct (isspace c) eqn:Hc.
    + rewrite IH. split; [by constructor | by inversion 1].
    + split; [discriminate | inversion 1; congruence].
Qed.

(** [not stmt.strip()] holds exactly for the empty and the
    whitespace-only strings. *)
Lemma strip_falsy_iff (s : str) :
  truth (strip s) = false <-> whitespace_only s.
Proof.
  assert (Hnil : forall t : str, truth t = false <-> t = [])
    by (intros [|? ?]; simpl; split; congruence).
  rewrite Hnil. unfold strip, rstrip. split.
  - intros H. apply lstrip_nil_iff.
    apply (f_equal (@rev N)) in H. rewrite rev_involutive in H. simpl in H.
    apply lstrip_nil_iff in H.
    destruct (lstrip s) as [|c t] eqn:E; [done|].
    exfalso. unfold whitespace_only in H. rewrite Forall_forall in H.
    assert (Hc : isspace c = true).
    { apply H. apply list_elem_of_In, in_rev. rewrite rev_involutive. by left. }
    clear H. revert Hc E. clear. induction s as [|d s IH]; simpl; [done|].
    destruct (isspace d) eqn:Hd; [auto|]. intros Hc [= -> _]. congruence.
  - intros H. apply lstrip_nil_iff in H. by rewrite H.
Qed.

Example strip_inner_space_kept : strip (lit "  a b  " ++ [10]) = lit "a b".
Proof. reflexivity. Qed.

Example strip_no_break_space : truth (strip [9; 160; 8195; 32]) = false.
Proof. reflexivity. Qed.

Example strip_zero_width_space_is_text : truth (strip [8203]) = true.
Proof. reflexivity. Qed.

End Strings.

Section MapM.
Context {E A B : Type}.
Implicit Types (f : A -> result E B) (l : list A).

Lemma mapM_app f l1 l2 :
  mapM f (l1 ++ l2) = (ys1 ← mapM f l1; ys2 ← mapM f l2; Ok (ys1 ++ ys2)).
Proof.
  induction l1 as [|x l1 IH]; simpl.
  - unfold mbind, result_bind. by destruct (mapM f l2).
  - unfold mbind, result_bind in *. destruct (f x); [|done].
    rewrite IH. destruct (mapM f l1); [|done]. by destruct (mapM f l2).
Qed.

Lemma mapM_map {C} (g : C -> A) f (l : list C) :
  mapM f (List.map g l) = mapM (fun c => f (g c)) l.
Proof. induction l as [|c l IH]; simpl; [done|]. by rewrite IH. Qed.

Lemma mapM_Ok_Forall2 f l ys :
  mapM f l = Ok ys <-> Forall2 (fun x y => f x = Ok y) l ys.
Proof.
  revert ys. induction l as [|x l IH]; intros ys; simpl.
  - split; [intros [= <-]; constructor | by inversion 1].
  - unfold mbind, result_bind. split.
    + destruct (f x) as [y|] eqn:Hx; [|done].
      destruct (mapM f l) as [ys'|] eqn:Hl; [|done].
      intros [= <-]. constructor; [done|]. by apply IH.
    + inversion 1 as [|? y ? ys' Hx Hl]; subst. rewrite Hx.
      apply IH in Hl. by rewrite Hl.
Qed.

End MapM.

(** * Properties of the extractor *)

Section ExtractorProperties.
Import Extractor.

Local Ltac unbind := unfold mbind, result_bind in *.

(** ** The two loops of [get_constraints_and_indexes_ddl] *)

Lemma for_index_accumulates e table indexes acc :
  for_index e table indexes acc =
  (stmts ← mapM (fun i => statement e table (IndexElement i)) indexes;
   Ok (acc ++ stmts)).
Proof.
  revert acc. induction indexes as [|i indexes IH]; intros acc; simpl.
  - by rewrite app_nil_r.
  - unbind. destruct (compiled _) as [text|]; [|done].
    rewrite IH. destruct (mapM _ indexes); [|done].
    by rewrite <- app_assoc.
Qed.

Lemma for_const_accumulates e table constraints acc :
  for_const e table constraints acc =
  (stmts ← mapM (fun c => statement e table (ConstraintElement c))
                (List.filter deferred constraints);
   Ok (acc ++ stmts)).
Proof.
  revert acc. induction constraints as [|c constraints IH]; intros acc; simpl.
  - by rewrite app_nil_r.
  - unfold deferred at 1. destruct (isinstance_PrimaryKeyConstraint c); simpl.
    + apply IH.
    + unbind. destruct (compiled _) as [text|]; [|done].
      rewrite IH. destruct (mapM _ _); [|done].
      by rewrite <- app_assoc.
Qed.

(** The elements of phase 2 in the order the source visits them. *)
Lemma ddl_statements_elements e table :
  ddl_statements e table =
  mapM (statement e table)
       (List.map IndexElement (tbl_indexes table)
        ++ List.map ConstraintElement (List.filter deferred (tbl_constraints table))).
Proof.
  unfold ddl_statements. rewrite for_index_accumulates, mapM_app, !mapM_map.
  unbind. destruct (mapM _ (tbl_indexes table)) as [s1|]; [|done].
  by rewrite for_const_accumulates.
Qed.

Lemma get_constraints_and_indexes_ddl_loaded self table_name table self' :
  Table_autoload true table_name self = (Ok table, self') ->
  get_constraints_and_indexes_ddl table_name self =
  (ddl_statements (engine self) table, self').
Proof. unfold get_constraints_and_indexes_ddl. by intros ->. Qed.

(** ** The loop of [get_table_base_ddl] *)

Lemma clean_table_loop cols name done pk :
  fold_left (fun clean col => append_column clean (new_col col)) cols
    {| tbl_name := name; tbl_columns := done; tbl_indexes := [];
       tbl_constraints := [implicit_primary_key pk] |} =
  {| tbl_name := name;
     tbl_columns := done ++ List.map new_col cols;
     tbl_indexes := [];
     tbl_constraints :=
       [implicit_primary_key
          (pk ++ List.map col_name (List.filter col_primary_key cols))] |}.
Proof.
  revert done pk. induction cols as [|c cols IH]; intros done pk; simpl.
  - by rewrite !app_nil_r.
  - unfold append_column at 2. simpl. rewrite app_nil_r.
    destruct (col_primary_key c); simpl.
    + unfold add_primary_key_column. simpl.
      change {| con_class := PrimaryKeyConstraint; con_name := None;
                con_columns := pk ++ [col_name c]; con_refcolumns := [];
                con_sqltext := None |}
        with (implicit_primary_key (pk ++ [col_name c])).
      rewrite IH. by rewrite <- !app_assoc.
    + rewrite IH. by rewrite <- !app_assoc.
Qed.

Lemma clean_table_eq table_name table :
  clean_table table_name table =
  {| tbl_name := table_name;
     tbl_columns := List.map new_col (tbl_columns table);
     tbl_indexes := [];
     tbl_constraints :=
       [implicit_primary_key
          (List.map col_name (List.filter col_primary_key (tbl_columns table)))] |}.
Proof. unfold clean_table, Table_new. by rewrite clean_table_loop. Qed.

End ExtractorProperties.

Section ExtractorClaims.
Import Extractor.

Local Ltac unbind := unfold mbind, result_bind in *.

Lemma mapM_statement_raises e table elements ex :
  mapM (statement e table) elements = Raise ex ->
  exists msg, ex = CompileError msg.
Proof.
  induction elements as [|x elements IH]; simpl; [done|]. unbind.
  destruct (statement e table x) as [stmt|ex'] eqn:Hx.
  - destruct (mapM _ elements); [done|]. intros [= <-]. by apply IH.
  - intros [= <-]. unfold statement, compiled in Hx. unbind.
    repeat case_match; simplify_eq; by eexists.
Qed.

(** The end-to-end scenario of the specification, evaluated: the base
    statement of [orders] has the three columns and the primary key and no
    foreign-key clause, although compiling the reflected table itself would
    print one. *)
Example orders_base_ddl :
  (get_table_base_ddl (lit "orders") (init Example.toy_engine)).1
  = Ok (lit "CREATE TABLE orders (id INTEGER NOT NULL, customer_id INTEGER, total NUMERIC NOT NULL DEFAULT 0, PRIMARY KEY (id));").
Proof. reflexivity. Qed.

Example orders_full_ddl :
  compile_CreateTable Example.toy_engine Example.orders
  = Ok ([10] ++ lit "CREATE TABLE orders (id INTEGER NOT NULL, customer_id INTEGER, total NUMERIC NOT NULL DEFAULT 0, PRIMARY KEY (id), CONSTRAINT fk_orders_customer FOREIGN KEY(customer_id) REFERENCES customers.id, CONSTRAINT uq_orders_id UNIQUE (id))" ++ [10; 10]).
Proof. reflexivity. Qed.

Example missing_table :
  get_constraints_and_indexes_ddl (lit "invoices") (init Example.toy_engine)
  = (Raise (NoSuchTableError (lit "invoices")), init Example.toy_engine).
Proof. reflexivity. Qed.

(** C1.  The split is no partition on the extractor that the two phases
    share.  On a fresh extractor phase 2 of [orders] has one statement for
    the index, one for the foreign key and one for the unique constraint.
    Once [get_table_base_ddl] has registered [orders], line 73 reflects onto
    the registered table, whose indexes and unique constraint stay while
    those found are added: phase 2 then holds the statement of the index
    twice and that of the unique constraint twice. *)
Lemma phase2_after_phase1_repeats_elements :
  (get_constraints_and_indexes_ddl (lit "orders") (init Example.toy_engine)).1
  = Ok [lit "CREATE INDEX ix_orders_customer_id ON orders (customer_id);";
        lit "ALTER TABLE orders ADD CONSTRAINT fk_orders_customer FOREIGN KEY(customer_id) REFERENCES customers.id;";
        lit "ALTER TABLE orders ADD CONSTRAINT uq_orders_id UNIQUE (id);"]
  /\ (get_constraints_and_indexes_ddl (lit "orders")
        (get_table_base_ddl (lit "orders") (init Example.toy_engine)).2).1
  = Ok [lit "CREATE INDEX ix_orders_customer_id ON orders (customer_id);";
        lit "CREATE INDEX ix_orders_customer_id ON orders (customer_id);";
        lit "ALTER TABLE orders ADD CONSTRAINT uq_orders_id UNIQUE (id);";
        lit "ALTER TABLE orders ADD CONSTRAINT fk_orders_customer FOREIGN KEY(customer_id) REFERENCES customers.id;";
        lit "ALTER TABLE orders ADD CONSTRAINT uq_orders_id UNIQUE (id);"].
Proof. split; reflexivity. Qed.

(** C2, as the code has it.  Whatever the kinds of the constraints of the
    reflected table, inside or outside the four of the specification,
    [get_constraints_and_indexes_ddl] does not raise
    [UnsupportedConstraintKind]. *)
Theorem UnsupportedConstraintKind_is_never_raised (self : DDLExtractor) (table_name : str) :
  is_UnsupportedConstraintKind (get_constraints_and_indexes_ddl table_name self).1 = false.
Proof.
  unfold get_constraints_and_indexes_ddl.
  destruct (Table_autoload true table_name self) as [loaded self'] eqn:Hload.
  cbn [fst]. destruct loaded as [table|ex]; unbind.
  - destruct (ddl_statements _ table) as [|ex] eqn:H; [done|].
    rewrite ddl_statements_elements in H.
    apply mapM_statement_raises in H as [msg ->]. done.
  - unfold Table_autoload in Hload.
    repeat case_match; simplify_eq; done.
Qed.

(** C2, as the specification has it, fails.  The application has declared
    [bookings] with its exclusion constraint, a kind outside the four, on
    the metadata of the extractor; reflection onto the registered table
    keeps the constraint, and the call returns the statement that adds
    it. *)
Lemma UnsupportedConstraintKind_counterexample :
  metadata Example.declared_bookings !! lit "bookings" = Some Example.bookings
  /\ (Table_autoload true (lit "bookings") Example.declared_bookings).1
     = Ok (Example.reflect_onto Example.bookings Example.bookings_reflected)
  /\ Exists (fun c => specified_kind (con_class c) = false)
            (tbl_constraints (Example.reflect_onto Example.bookings Example.bookings_reflected))
  /\ (get_constraints_and_indexes_ddl (lit "bookings") Example.declared_bookings).1
     = Ok [lit "ALTER TABLE bookings ADD CONSTRAINT no_overlap EXCLUDE (room, during);"].
Proof.
  split; [reflexivity|]. split; [reflexivity|]. split; [|reflexivity].
  apply Exists_cons_tl, Exists_cons_hd. reflexivity.
Qed.

Lemma filter_Permutation_list {A} (f : A -> bool) (l1 l2 : list A) :
  Permutation l1 l2 -> Permutation (List.filter f l1) (List.filter f l2).
Proof.
  induction 1 as [|x l1 l2 _ IH|x y l|l1 l2 l3 _ IH1 _ IH2]; simpl.
  - done.
  - destruct (f x); [by constructor|done].
  - destruct (f x), (f y); try done. apply perm_swap.
  - by etrans.
Qed.

Lemma mapM_Permutation {E A B} (f : A -> result E B) (l1 l2 : list A) :
  Permutation l1 l2 ->
  forall ys1, mapM f l1 = Ok ys1 ->
  exists ys2, mapM f l2 = Ok ys2 /\ Permutation ys1 ys2.
Proof.
  induction 1 as [|x l1 l2 _ IH|x y l|l1 l2 l3 _ IH1 _ IH2]; intros ys1; simpl; unbind.
  - intros [= <-]. by exists [].
  - destruct (f x) as [b|]; [|done]. destruct (mapM f l1) as [ys|]; [|done].
    intros [= <-]. destruct (IH ys eq_refl) as (ys2 & -> & Hp).
    exists (b :: ys2). split; [done|by constructor].
  - destruct (f y) as [b|]; [|done]. destruct (f x) as [a|]; [|done].
    destruct (mapM f l) as [ys|]; [|done]. intros [= <-].
    exists (a :: b :: ys). split; [done|apply perm_swap].
  - intros H1. destruct (IH1 _ H1) as (ys2 & H2 & Hp12).
    destruct (IH2 _ H2) as (ys3 & H3 & Hp23).
    exists ys3. split; [done|by etrans].
Qed.

Lemma mapM_ext {E A B} (f g : A -> result E B) (l : list A) :
  (forall x, f x = g x) -> mapM f l = mapM g l.
Proof. intros H. induction l as [|x l IH]; simpl; [done|]. by rewrite H, IH. Qed.

Lemma statement_of_same_name e t1 t2 x :
  tbl_name t1 = tbl_name t2 -> statement e t1 x = statement e t2 x.
Proof. intros H. destruct x; simpl; by rewrite H. Qed.

(** C3, as the code has it.  The list of phase 2 is made of the statements
    of the indexes, in the order in which the set [table.indexes] is
    iterated, followed by the statements of the constraints other than
    primary keys, in the order in which the set [table.constraints] is
    iterated.  The catalog does not fix these iteration orders; when the
    same table is iterated in another order, the call returns the same
    index statements and the same constraint statements, each group
    possibly in another order. *)
Theorem phase2_order_is_the_iteration_order (e : Engine) (t1 t2 : Table)
    (stmts1 : list str) :
  tbl_name t1 = tbl_name t2 ->
  Permutation (tbl_indexes t1) (tbl_indexes t2) ->
  Permutation (tbl_constraints t1) (tbl_constraints t2) ->
  ddl_statements e t1 = Ok stmts1 ->
  exists i1 c1 i2 c2 : list str,
    stmts1 = i1 ++ c1
    /\ Forall2 (fun x stmt => statement e t1 (IndexElement x) = Ok stmt)
               (tbl_indexes t1) i1
    /\ Forall2 (fun x stmt => statement e t1 (ConstraintElement x) = Ok stmt)
               (List.filter deferred (tbl_constraints t1)) c1
    /\ ddl_statements e t2 = Ok (i2 ++ c2)
    /\ Forall2 (fun x stmt => statement e t2 (IndexElement x) = Ok stmt)
               (tbl_indexes t2) i2
    /\ Forall2 (fun x stmt => statement e t2 (ConstraintElement x) = Ok stmt)
               (List.filter deferred (tbl_constraints t2)) c2
    /\ Permutation i1 i2 /\ Permutation c1 c2.
Proof.
  intros Hname Hidx Hcon H1.
  rewrite ddl_statements_elements, mapM_app, !mapM_map in H1. unbind.
  destruct (mapM _ (tbl_indexes t1)) as [i1|] eqn:Hi1; [|done].
  destruct (mapM _ (List.filter deferred (tbl_constraints t1))) as [c1|] eqn:Hc1; [|done].
  injection H1 as <-.
  destruct (mapM_Permutation _ _ _ Hidx _ Hi1) as (i2 & Hi2 & Hpi).
  destruct (mapM_Permutation _ _ _ (filter_Permutation_list deferred _ _ Hcon) _ Hc1)
    as (c2 & Hc2 & Hpc).
  assert (Hi2' : mapM (fun c => statement e t2 (IndexElement c)) (tbl_indexes t2) = Ok i2).
  { rewrite <- Hi2. apply mapM_ext. intros x. symmetry.
    by apply statement_of_same_name. }
  assert (Hc2' : mapM (fun c => statement e t2 (ConstraintElement c))
                      (List.filter deferred (tbl_constraints t2)) = Ok c2).
  { rewrite <- Hc2. apply mapM_ext. intros x. symmetry.
    by apply statement_of_same_name. }
  exists i1, c1, i2, c2. split; [done|].
  split; [by apply mapM_Ok_Forall2|]. split; [by apply mapM_Ok_Forall2|].
  split.
  { rewrite ddl_statements_elements, mapM_app, !mapM_map. unbind.
    by rewrite Hi2', Hc2'. }
  split; [by apply mapM_Ok_Forall2|]. split; [by apply mapM_Ok_Forall2|]. done.
Qed.

Lemma orders_rehashed_same_sets :
  tbl_name Example.orders = tbl_name Example.orders_rehashed
  /\ tbl_columns Example.orders = tbl_columns Example.orders_rehashed
  /\ Permutation (tbl_indexes Example.orders) (tbl_indexes Example.orders_rehashed)
  /\ Permutation (tbl_constraints Example.orders) (tbl_constraints Example.orders_rehashed).
Proof.
  split; [reflexivity|]. split; [reflexivity|]. split; [reflexivity|].
  simpl. etrans; [apply perm_swap|]. etrans; [apply perm_skip, perm_swap|].
  apply perm_swap.
Defined.

Lemma phase2_order_is_the_iteration_order_witness :
  tbl_name Example.orders = tbl_name Example.orders_rehashed
  /\ Permutation (tbl_indexes Example.orders) (tbl_indexes Example.orders_rehashed)
  /\ Permutation (tbl_constraints Example.orders) (tbl_constraints Example.orders_rehashed)
  /\ ddl_statements Example.toy_engine Example.orders
     = Ok [lit "CREATE INDEX ix_orders_customer_id ON orders (customer_id);";
           lit "ALTER TABLE orders ADD CONSTRAINT fk_orders_customer FOREIGN KEY(customer_id) REFERENCES customers.id;";
           lit "ALTER TABLE orders ADD CONSTRAINT uq_orders_id UNIQUE (id);"]
  /\ exists i1 c1 i2 c2 : list str,
      [lit "CREATE INDEX ix_orders_customer_id ON orders (customer_id);";
       lit "ALTER TABLE orders ADD CONSTRAINT fk_orders_customer FOREIGN KEY(customer_id) REFERENCES customers.id;";
       lit "ALTER TABLE orders ADD CONSTRAINT uq_orders_id UNIQUE (id);"]
      = i1 ++ c1
      /\ Forall2 (fun x stmt => statement Example.toy_engine Example.orders (IndexElement x) = Ok stmt)
                 (tbl_indexes Example.orders) i1
      /\ Forall2 (fun x stmt => statement Example.toy_engine Example.orders (ConstraintElement x) = Ok stmt)
                 (List.filter deferred (tbl_constraints Example.orders)) c1
      /\ ddl_statements Example.toy_engine Example.orders_rehashed = Ok (i2 ++ c2)
      /\ Forall2 (fun x stmt => statement Example.toy_engine Example.orders_rehashed (IndexElement x) = Ok stmt)
                 (tbl_indexes Example.orders_rehashed) i2
      /\ Forall2 (fun x stmt => statement Example.toy_engine Example.orders_rehashed (ConstraintElement x) = Ok stmt)
                 (List.filter deferred (tbl_constraints Example.orders_rehashed)) c2
      /\ Permutation i1 i2 /\ Permutation c1 c2.
Proof.
  destruct orders_rehashed_same_sets as (Hn & _ & Hi & Hc).
  split; [exact Hn|]. split; [exact Hi|]. split; [exact Hc|]. split; [reflexivity|].
  exact (phase2_order_is_the_iteration_order Example.toy_engine Example.orders
           Example.orders_rehashed _ Hn Hi Hc eq_refl).
Defined.

(** C3, as the specification has it, fails: [orders] and [orders_rehashed]
    are one table of the catalog, the same name, columns, set of indexes and
    set of constraints, iterated in two orders, and phase 2 returns two
    different lists for them; the order of the list is not that of the
    catalog. *)
Lemma phase2_order_counterexample :
  tbl_name Example.orders = tbl_name Example.orders_rehashed
  /\ tbl_columns Example.orders = tbl_columns Example.orders_rehashed
  /\ Permutation (tbl_indexes Example.orders) (tbl_indexes Example.orders_rehashed)
  /\ Permutation (tbl_constraints Example.orders) (tbl_constraints Example.orders_rehashed)
  /\ ddl_statements Example.toy_engine Example.orders
     = Ok [lit "CREATE INDEX ix_orders_customer_id ON orders (customer_id);";
           lit "ALTER TABLE orders ADD CONSTRAINT fk_orders_customer FOREIGN KEY(customer_id) REFERENCES customers.id;";
           lit "ALTER TABLE orders ADD CONSTRAINT uq_orders_id UNIQUE (id);"]
  /\ ddl_statements Example.toy_engine Example.orders_rehashed
     = Ok [lit "CREATE INDEX ix_orders_customer_id ON orders (customer_id);";
           lit "ALTER TABLE orders ADD CONSTRAINT uq_orders_id UNIQUE (id);";
           lit "ALTER TABLE orders ADD CONSTRAINT fk_orders_customer FOREIGN KEY(customer_id) REFERENCES customers.id;"]
  /\ ddl_statements Example.toy_engine Example.orders
     <> ddl_statements Example.toy_engine Example.orders_rehashed.
Proof.
  destruct orders_rehashed_same_sets as (Hn & Hcols & Hi & Hc).
  repeat (split; [first [exact Hn | exact Hcols | exact Hi | exact Hc | reflexivity]|]).
  vm_compute. discriminate.
Qed.

Lemma Table_autoload_engine ext table_name self :
  engine (Table_autoload ext table_name self).2 = engine self.
Proof. unfold Table_autoload. by repeat case_match. Qed.

(** A table that has just been loaded is registered under its name. *)
Lemma Table_autoload_registers ext table_name self table :
  (Table_autoload ext table_name self).1 = Ok table ->
  metadata (Table_autoload ext table_name self).2 !! table_name = Some table.
Proof.
  unfold Table_autoload.
  repeat case_match; simpl; intros; simplify_eq; by rewrite ?lookup_insert_eq.
Qed.

Lemma Table_autoload_failure_keeps_state ext table_name self ex :
  (Table_autoload ext table_name self).1 = Raise ex ->
  (Table_autoload ext table_name self).2 = self.
Proof. unfold Table_autoload. by repeat case_match. Qed.

(** A second run of [get_table_base_ddl] reads the table the first run
    registered, and returns what the first run returned. *)
Lemma base_ddl_second_run_agrees (self : DDLExtractor) (table_name : str) :
  (get_table_base_ddl table_name (get_table_base_ddl table_name self).2).1
  = (get_table_base_ddl table_name self).1.
Proof.
  unfold get_table_base_ddl.
  destruct (Table_autoload false table_name self) as [loaded self1] eqn:H1.
  cbn [snd fst].
  pose proof (Table_autoload_engine false table_name self) as He.
  rewrite H1 in He. cbn [snd] in He.
  destruct loaded as [table|ex].
  - pose proof (Table_autoload_registers false table_name self table) as Hreg.
    rewrite H1 in Hreg. specialize (Hreg eq_refl). cbn [snd] in Hreg.
    unfold Table_autoload at 1. rewrite Hreg. cbn [fst]. by rewrite He.
  - pose proof (Table_autoload_failure_keeps_state false table_name self ex) as Hst.
    rewrite H1 in Hst. specialize (Hst eq_refl). cbn [snd] in Hst. subst self1.
    by rewrite H1.
Qed.

(** C4.  Two runs of [get_constraints_and_indexes_ddl] do not return the
    same text.  The first run on a fresh extractor registers [orders] and
    returns three statements; the second run reflects onto the registered
    table (line 73, [extend_existing=True]), finds the index and the unique
    constraint once more, and returns five; a third returns seven.  Two
    runs of [get_table_base_ddl] at the same input do agree. *)
Lemma second_run_of_phase2_returns_more :
  (get_table_base_ddl (lit "orders")
     (get_table_base_ddl (lit "orders") (init Example.toy_engine)).2).1
  = (get_table_base_ddl (lit "orders") (init Example.toy_engine)).1
  /\ (get_constraints_and_indexes_ddl (lit "orders") (init Example.toy_engine)).1
  = Ok [lit "CREATE INDEX ix_orders_customer_id ON orders (customer_id);";
        lit "ALTER TABLE orders ADD CONSTRAINT fk_orders_customer FOREIGN KEY(customer_id) REFERENCES customers.id;";
        lit "ALTER TABLE orders ADD CONSTRAINT uq_orders_id UNIQUE (id);"]
  /\ (get_constraints_and_indexes_ddl (lit "orders")
        (get_constraints_and_indexes_ddl (lit "orders") (init Example.toy_engine)).2).1
  = Ok [lit "CREATE INDEX ix_orders_customer_id ON orders (customer_id);";
        lit "CREATE INDEX ix_orders_customer_id ON orders (customer_id);";
        lit "ALTER TABLE orders ADD CONSTRAINT uq_orders_id UNIQUE (id);";
        lit "ALTER TABLE orders ADD CONSTRAINT fk_orders_customer FOREIGN KEY(customer_id) REFERENCES customers.id;";
        lit "ALTER TABLE orders ADD CONSTRAINT uq_orders_id UNIQUE (id);"]
  /\ match (get_constraints_and_indexes_ddl (lit "orders")
              (get_constraints_and_indexes_ddl (lit "orders")
                 (get_constraints_and_indexes_ddl (lit "orders")
                    (init Example.toy_engine)).2).2).1 with
     | Ok stmts => length stmts = 7%nat
     | Raise _ => False
     end.
Proof. repeat split; reflexivity. Qed.

Lemma filter_primary_key_detached cols :
  List.map col_name (List.filter col_primary_key (List.map detached cols))
  = List.map col_name (List.filter col_primary_key cols).
Proof.
  induction cols as [|c cols IH]; simpl; [done|].
  destruct (col_primary_key c); simpl; by rewrite IH.
Qed.

(** C6.  Every column of the table is in the clean table that
    [get_table_base_ddl] compiles, at its position, with name, type,
    nullability, primary-key flag, autoincrement, default, server default
    and comment unchanged and without any foreign key.  The clean table
    has no index and no constraint but its primary key, so it is the same
    whether or not the reflected table carries foreign keys, and the
    statement returned is the compilation of that clean table: no
    foreign-key reference reaches the text of phase 1. *)
Theorem base_columns_unchanged_without_foreign_keys (self : DDLExtractor)
    (table_name : str) (table : Table) :
  Forall2 (fun col new =>
             col_name new = col_name col
             /\ col_type new = col_type col
             /\ col_nullable new = col_nullable col
             /\ col_primary_key new = col_primary_key col
             /\ col_autoincrement new = col_autoincrement col
             /\ col_default new = col_default col
             /\ col_server_default new = col_server_default col
             /\ col_comment new = col_comment col
             /\ col_foreign_keys new = [])
          (tbl_columns table) (tbl_columns (clean_table table_name table))
  /\ Forall (fun c => con_class c = PrimaryKeyConstraint)
            (tbl_constraints (clean_table table_name table))
  /\ tbl_indexes (clean_table table_name table) = []
  /\ clean_table table_name table = clean_table table_name (without_foreign_keys table)
  /\ get_table_base_ddl table_name self =
     ((t ← (Table_autoload false table_name self).1;
       ddl ← compiled (compile_CreateTable (engine self) (clean_table table_name t));
       Ok (strip ddl ++ lit ";")),
      (Table_autoload false table_name self).2).
Proof.
  rewrite !clean_table_eq. cbn [tbl_columns tbl_constraints tbl_indexes without_foreign_keys].
  split; [|split; [|split; [|split]]].
  - induction (tbl_columns table) as [|c cols IH]; simpl; constructor; [|done].
    by repeat split.
  - by repeat constructor.
  - done.
  - f_equal.
    + rewrite map_map. apply map_ext. by intros [].
    + by rewrite filter_primary_key_detached.
  - unfold get_table_base_ddl. by destruct (Table_autoload false table_name self).
Qed.

Lemma deferred_nil_of_primary_keys_only constraints :
  Forall (fun c => con_class c = PrimaryKeyConstraint) constraints ->
  List.filter deferred constraints = [].
Proof.
  induction 1 as [|c constraints Hc _ IH]; simpl; [done|].
  unfold deferred at 1, isinstance_PrimaryKeyConstraint. by rewrite Hc.
Qed.

Lemma count_class_zero k t c :
  count_class k t = 0%nat -> c ∈ tbl_constraints t -> con_class c <> k.
Proof.
  unfold count_class. intros H Hin Hk.
  apply length_zero_iff_nil in H.
  assert (Hf : In c (List.filter (fun c => bool_decide (con_class c = k)) (tbl_constraints t))).
  { apply filter_In. split; [by apply list_elem_of_In|]. by apply bool_decide_eq_true. }
  by rewrite H in Hf.
Qed.

(** C8, as the code has it.  A table whose constraints are all of the four
    specified kinds, with no foreign-key, no unique and no check constraint
    among them, and with no index, gives the empty list in phase 2, whether
    or not it has a primary key. *)
Theorem nothing_deferred_gives_empty_list (self : DDLExtractor) (table_name : str)
    (table : Table) (self' : DDLExtractor) :
  Table_autoload true table_name self = (Ok table, self') ->
  Forall (fun c => specified_kind (con_class c) = true) (tbl_constraints table) ->
  count_class ForeignKeyConstraint table = 0%nat ->
  count_class UniqueConstraint table = 0%nat ->
  count_class CheckConstraint table = 0%nat ->
  tbl_indexes table = [] ->
  get_constraints_and_indexes_ddl table_name self = (Ok [], self').
Proof.
  intros Hload Hkinds Hfk Huq Hck Hidx.
  rewrite (get_constraints_and_indexes_ddl_loaded _ _ _ _ Hload).
  rewrite ddl_statements_elements, Hidx.
  rewrite deferred_nil_of_primary_keys_only; [done|].
  rewrite Forall_forall in Hkinds |- *. intros c Hc.
  pose proof (count_class_zero _ _ _ Hfk Hc).
  pose proof (count_class_zero _ _ _ Huq Hc).
  pose proof (count_class_zero _ _ _ Hck Hc).
  specialize (Hkinds c Hc). by destruct (con_class c).
Qed.

Lemma nothing_deferred_gives_empty_list_witness :
  Table_autoload true (lit "customers") (init Example.toy_engine)
    = (Ok Example.customers,
       set_metadata (init Example.toy_engine) (<[lit "customers" := Example.customers]> ∅))
  /\ Forall (fun c => specified_kind (con_class c) = true) (tbl_constraints Example.customers)
  /\ count_class ForeignKeyConstraint Example.customers = 0%nat
  /\ count_class UniqueConstraint Example.customers = 0%nat
  /\ count_class CheckConstraint Example.customers = 0%nat
  /\ tbl_indexes Example.customers = []
  /\ Exists (fun c => col_primary_key c = true) (tbl_columns Example.customers)
  /\ get_constraints_and_indexes_ddl (lit "customers") (init Example.toy_engine)
     = (Ok [],
        set_metadata (init Example.toy_engine) (<[lit "customers" := Example.customers]> ∅)).
Proof.
  assert (Hload : Table_autoload true (lit "customers") (init Example.toy_engine)
    = (Ok Example.customers,
       set_metadata (init Example.toy_engine) (<[lit "customers" := Example.customers]> ∅)))
    by reflexivity.
  assert (Hkinds : Forall (fun c => specified_kind (con_class c) = true)
                          (tbl_constraints Example.customers))
    by (repeat constructor).
  repeat (split; [first [exact Hload | exact Hkinds | reflexivity
                        | apply Exists_cons_hd; reflexivity]|]).
  exact (nothing_deferred_gives_empty_list _ _ _ _ Hload Hkinds
           eq_refl eq_refl eq_refl eq_refl).
Defined.

(** C8, as the specification has it, fails: the declared [bookings] has no
    foreign-key, no unique and no check constraint and no index, and
    phase 2 is not empty, it holds the statement of the exclusion
    constraint. *)
Lemma nothing_deferred_counterexample :
  (Table_autoload true (lit "bookings") Example.declared_bookings).1
  = Ok (Example.reflect_onto Example.bookings Example.bookings_reflected)
  /\ count_class ForeignKeyConstraint
       (Example.reflect_onto Example.bookings Example.bookings_reflected) = 0%nat
  /\ count_class UniqueConstraint
       (Example.reflect_onto Example.bookings Example.bookings_reflected) = 0%nat
  /\ count_class CheckConstraint
       (Example.reflect_onto Example.bookings Example.bookings_reflected) = 0%nat
  /\ tbl_indexes (Example.reflect_onto Example.bookings Example.bookings_reflected) = []
  /\ (get_constraints_and_indexes_ddl (lit "bookings") Example.declared_bookings).1
     = Ok [lit "ALTER TABLE bookings ADD CONSTRAINT no_overlap EXCLUDE (room, during);"]
  /\ (get_constraints_and_indexes_ddl (lit "bookings") Example.declared_bookings).1
     <> Ok [].
Proof. repeat (split; [reflexivity|]). vm_compute. discriminate. Qed.

End ExtractorClaims.

(** * Properties of the applier *)

Section ApplierProperties.
Import Applier.
Context {DB Exn : Type}.
Implicit Types (eng : Engine DB Exn) (w : World DB) (stmt : str).

Lemma attempted_app (tr1 tr2 : list Event) :
  attempted (tr1 ++ tr2) = attempted tr1 ++ attempted tr2.
Proof.
  induction tr1 as [|ev tr1 IH]; simpl; [done|]. destruct ev; by rewrite ?IH.
Qed.

Lemma attempted_Execute (stmts : list str) :
  attempted (List.map Execute stmts) = stmts.
Proof. induction stmts as [|s stmts IH]; simpl; by rewrite ?IH. Qed.

Lemma announced_app (l1 l2 : list LogRecord) :
  announced (l1 ++ l2) = announced l1 ++ announced l2.
Proof.
  induction l1 as [|r l1 IH]; simpl; [done|]. destruct r; by rewrite ?IH.
Qed.

(** The loop over a concatenation: the second part runs only when the
    first part raised nothing. *)
Lemma for_stmt_app eng (l1 l2 : list str) w :
  for_stmt eng (l1 ++ l2) w =
  match for_stmt eng l1 w with
  | (Ok _, w1) => for_stmt eng l2 w1
  | (Raise e, w1) => (Raise e, w1)
  end.
Proof.
  revert w. induction l1 as [|stmt l1 IH]; intros w; simpl; [done|].
  destruct (truth (strip stmt)); simpl; [|apply IH].
  destruct (execute eng stmt (database w)); [apply IH|done].
Qed.

(** Skipped entries leave no mark. *)
Lemma for_stmt_nonblank eng (stmts : list str) w :
  for_stmt eng stmts w = for_stmt eng (nonblank stmts) w.
Proof.
  revert w. induction stmts as [|stmt stmts IH]; intros w; simpl; [done|].
  destruct (truth (strip stmt)) eqn:H; simpl; [|apply IH].
  rewrite H. simpl. destruct (execute eng stmt (database w)); [apply IH|done].
Qed.

(** What a run of the loop that raised nothing has done. *)
Lemma for_stmt_Ok eng (stmts : list str) w u w' :
  for_stmt eng stmts w = (Ok u, w') ->
  trace w' = trace w ++ List.map Execute (nonblank stmts)
  /\ log w' = log w ++ List.map (fun stmt => INFO (info_message stmt)) (nonblank stmts).
Proof.
  revert w. induction stmts as [|stmt stmts IH]; intros w; simpl.
  - intros [= <- <-]. by rewrite !app_nil_r.
  - unfold nonblank. simpl. destruct (truth (strip stmt)); simpl; [|apply IH].
    destruct (execute eng stmt (database w)) as [db'|]; [|done].
    intros H. apply IH in H as [-> ->]. simpl. by rewrite <- !app_assoc.
Qed.

(** What a run of the loop that raised has done: it stopped at the first
    statement whose execution raised, with that exception. *)
Lemma for_stmt_Raise eng (stmts : list str) w e w' :
  for_stmt eng stmts w = (Raise e, w') ->
  exists pre stmt post w1,
    stmts = pre ++ stmt :: post
    /\ for_stmt eng pre w = (Ok tt, w1)
    /\ truth (strip stmt) = true
    /\ execute eng stmt (database w1) = Raise e
    /\ w' = logger_error (error_message eng stmt e)
              (emit (Execute stmt) (logger_info (info_message stmt) w1)).
Proof.
  revert w. induction stmts as [|stmt stmts IH]; intros w; simpl; [done|].
  destruct (truth (strip stmt)) eqn:Hs; simpl.
  - destruct (execute eng stmt (database w)) as [db'|e'] eqn:Hx.
    + intros H. apply IH in H as (pre & s & post & w1 & -> & Hpre & Hb & He & ->).
      exists (stmt :: pre), s, post, w1. simpl. rewrite Hs. simpl. rewrite Hx.
      by repeat split.
    + intros [= <- <-]. exists [], stmt, stmts, w. by repeat split.
  - intros H. apply IH in H as (pre & s & post & w1 & -> & Hpre & Hb & He & ->).
    exists (stmt :: pre), s, post, w1. simpl. rewrite Hs. simpl.
    by repeat split.
Qed.

(** The statements attempted and announced by any run of the loop. *)
Lemma for_stmt_effects eng (stmts : list str) w :
  exists done : list str,
    trace (for_stmt eng stmts w).2 = trace w ++ List.map Execute done
    /\ announced (log (for_stmt eng stmts w).2)
       = announced (log w) ++ List.map info_message done
    /\ Forall (fun stmt => truth (strip stmt) = true) done
    /\ match (for_stmt eng stmts w).1 with
       | Ok _ => done = nonblank stmts
       | Raise _ => True
       end.
Proof.
  revert w. induction stmts as [|stmt stmts IH]; intros w; simpl.
  - exists []. simpl. by rewrite !app_nil_r.
  - unfold nonblank. simpl. destruct (truth (strip stmt)) eqn:Hs; simpl; [|apply IH].
    destruct (execute eng stmt (database w)) as [db'|e].
    + destruct (IH (set_database db'
                     (emit (Execute stmt) (logger_info (info_message stmt) w))))
        as (done & Htr & Hlog & Hnb & Hok).
      exists (stmt :: done). rewrite Htr, Hlog. simpl.
      rewrite announced_app, <- !app_assoc. simpl.
      repeat split; [by constructor|].
      destruct (for_stmt _ _ _).1; [by rewrite Hok|done].
    + exists [stmt]. simpl. rewrite !announced_app. simpl. rewrite app_nil_r.
      repeat split. by constructor.
Qed.

Lemma for_stmt_blank eng (stmts : list str) w :
  Forall whitespace_only stmts -> for_stmt eng stmts w = (Ok tt, w).
Proof.
  induction 1 as [|stmt stmts Hs _ IH]; simpl; [done|].
  apply strip_falsy_iff in Hs. by rewrite Hs.
Qed.

End ApplierProperties.

Section ApplierClaims.
Import Applier.

Lemma apply_ddl_result {DB Exn : Type} (eng : Engine DB Exn) (stmts : list str) (db : DB) :
  (apply_ddl eng stmts db).1 = (for_stmt eng stmts (opened db)).1.
Proof.
  unfold apply_ddl. by destruct (for_stmt eng stmts (opened db)) as [[[]|e] w].
Qed.

Lemma apply_ddl_log {DB Exn : Type} (eng : Engine DB Exn) (stmts : list str) (db : DB) :
  log (apply_ddl eng stmts db).2 = log (for_stmt eng stmts (opened db)).2.
Proof.
  unfold apply_ddl. by destruct (for_stmt eng stmts (opened db)) as [[[]|e] w].
Qed.

Lemma apply_ddl_attempted {DB Exn : Type} (eng : Engine DB Exn) (stmts : list str) (db : DB) :
  attempted (trace (apply_ddl eng stmts db).2)
  = attempted (trace (for_stmt eng stmts (opened db)).2).
Proof.
  unfold apply_ddl. destruct (for_stmt eng stmts (opened db)) as [[[]|e] w];
    simpl; rewrite !attempted_app; simpl; by rewrite !app_nil_r.
Qed.

(** C5.  When the statements before statement k run without error and
    statement k, which is not blank, raises [e]: the call raises [e]; the
    statements attempted are the non-blank ones before k and then k, and
    none after it; the log ends with the announcement of statement k and
    the error record that quotes it; the transaction is rolled back and
    never committed, and on a target with transactional DDL the database
    is back in the state in which the call found it. *)
Theorem first_failure_stops_and_rolls_back {DB Exn : Type} (eng : Engine DB Exn)
    (pre : list str) (stmt : str) (post : list str) (db : DB) (w : World DB) (e : Exn) :
  for_stmt eng pre (opened db) = (Ok tt, w) ->
  truth (strip stmt) = true ->
  execute eng stmt (database w) = Raise e ->
  apply_ddl eng (pre ++ stmt :: post) db =
    (Raise e,
     {| database := if transactional_ddl eng then db else database w;
        log := List.map (fun s => INFO (info_message s)) (nonblank pre)
               ++ [INFO (info_message stmt); ERROR (error_message eng stmt e)];
        trace := [Connect; Begin]
                 ++ List.map Execute (nonblank pre ++ [stmt])
                 ++ [Rollback; Close] |}).
Proof.
  intros Hpre Hs He. unfold apply_ddl. rewrite for_stmt_app, Hpre.
  apply for_stmt_Ok in Hpre as [Htr Hlog]. simpl in Htr, Hlog.
  simpl. rewrite Hs. simpl. rewrite He. unfold emit, set_database, logger_error. simpl.
  rewrite Htr, Hlog. f_equal. f_equal.
  - by rewrite <- app_assoc.
  - rewrite map_app. simpl. by rewrite <- !app_assoc.
Qed.

Lemma first_failure_stops_and_rolls_back_witness :
  for_stmt (Example.toy_target true) [lit "CREATE a"; lit "  "; lit "CREATE b"] (opened [])
    = (Ok tt, {| database := [lit "a"; lit "b"];
                 log := [INFO (lit "Executing DDL: CREATE a..."); INFO (lit "Executing DDL: CREATE b...")];
                 trace := [Connect; Begin; Execute (lit "CREATE a"); Execute (lit "CREATE b")] |})
  /\ truth (strip (lit "CREATE a")) = true
  /\ execute (Example.toy_target true) (lit "CREATE a") [lit "a"; lit "b"]
     = Raise (lit "relation already exists")
  /\ apply_ddl (Example.toy_target true)
       ([lit "CREATE a"; lit "  "; lit "CREATE b"] ++ lit "CREATE a" :: [lit "CREATE c"]) []
     = (Raise (lit "relation already exists"),
        {| database := [];
           log := [INFO (lit "Executing DDL: CREATE a..."); INFO (lit "Executing DDL: CREATE b...");
                   INFO (lit "Executing DDL: CREATE a...");
                   ERROR (lit "Error executing DDL: CREATE a" ++ [10]
                          ++ lit "Error: relation already exists")];
           trace := [Connect; Begin; Execute (lit "CREATE a"); Execute (lit "CREATE b");
                     Execute (lit "CREATE a"); Rollback; Close] |}).
Proof.
  pose proof (first_failure_stops_and_rolls_back (Example.toy_target true)
                [lit "CREATE a"; lit "  "; lit "CREATE b"] (lit "CREATE a")
                [lit "CREATE c"] [] _ _ eq_refl eq_refl eq_refl) as H.
  repeat (split; [reflexivity|]). exact H.
Defined.



(** C9.  Entries that are empty or whitespace-only are skipped: the call
    does, returns and logs exactly what it does, returns and logs for the
    sequence without them; no statement it attempts is empty or
    whitespace-only; the statements it announces in the log are those it
    attempts; and when it raises nothing it has attempted every non-blank
    entry, in order. *)
Theorem blank_entries_are_skipped {DB Exn : Type} (eng : Engine DB Exn)
    (stmts : list str) (db : DB) :
  apply_ddl eng stmts db = apply_ddl eng (nonblank stmts) db
  /\ Forall (fun stmt => ~ whitespace_only stmt)
            (attempted (trace (apply_ddl eng stmts db).2))
  /\ announced (log (apply_ddl eng stmts db).2)
     = List.map info_message (attempted (trace (apply_ddl eng stmts db).2))
  /\ match (apply_ddl eng stmts db).1 with
     | Ok _ => attempted (trace (apply_ddl eng stmts db).2) = nonblank stmts
     | Raise _ => True
     end.
Proof.
  split; [unfold apply_ddl; by rewrite for_stmt_nonblank|].
  destruct (for_stmt_effects eng stmts (opened db)) as (done & Htr & Hlog & Hnb & Hok).
  rewrite apply_ddl_result, apply_ddl_log, apply_ddl_attempted, Htr, Hlog.
  simpl. rewrite attempted_Execute.
  split; [|done].
  eapply Forall_impl; [exact Hnb|].
  intros s Hs Hw. apply strip_falsy_iff in Hw. congruence.
Qed.

(** C10, as the code has it.  On an engine whose connection opens and
    whose transaction begins and commits, the call on the empty list, and
    on a list of entries that are all empty or whitespace-only, connects,
    begins and commits its transaction, closes the connection and returns
    normally: nothing is executed, nothing is logged, the database is as it
    was. *)
Theorem nothing_to_apply_commits_when_connected {DB Exn : Type}
    (self : DDLApplier.Engine DB Exn) (stmts : list str) (db : DB) :
  DDLApplier.connect_raises self = None ->
  DDLApplier.begin_raises self = None ->
  DDLApplier.commit_raises self db = None ->
  Forall whitespace_only stmts ->
  DDLApplier.apply_ddl self stmts db =
    (Ok tt, {| database := db; log := []; trace := [Connect; Begin; Commit; Close] |}).
Proof.
  intros Hc Hb Hk H. unfold DDLApplier.apply_ddl.
  rewrite Hc, Hb, for_stmt_blank by done. simpl. by rewrite Hk.
Qed.

Lemma nothing_to_apply_commits_when_connected_witness :
  DDLApplier.connect_raises Example.reachable = None
  /\ DDLApplier.begin_raises Example.reachable = None
  /\ DDLApplier.commit_raises Example.reachable [lit "a"] = None
  /\ Forall whitespace_only [[]; lit "   "; [9; 10; 160]]
  /\ DDLApplier.apply_ddl Example.reachable [[]; lit "   "; [9; 10; 160]] [lit "a"]
     = (Ok tt, {| database := [lit "a"]; log := [];
                  trace := [Connect; Begin; Commit; Close] |})
  /\ DDLApplier.apply_ddl Example.reachable [] [lit "a"]
     = (Ok tt, {| database := [lit "a"]; log := [];
                  trace := [Connect; Begin; Commit; Close] |}).
Proof.
  assert (H : Forall whitespace_only [[]; lit "   "; [9; 10; 160]])
    by (repeat constructor).
  split; [reflexivity|]. split; [reflexivity|]. split; [reflexivity|].
  split; [exact H|]. split.
  - exact (nothing_to_apply_commits_when_connected Example.reachable _ [lit "a"]
             eq_refl eq_refl eq_refl H).
  - exact (nothing_to_apply_commits_when_connected Example.reachable [] [lit "a"]
             eq_refl eq_refl eq_refl (Forall_nil_2 _)).
Defined.

(** C10, as the specification has it, fails: when the database cannot be
    reached, line 16 raises, and the call on the empty list raises that
    error; it opens no transaction and commits nothing. *)
Lemma nothing_to_apply_counterexample :
  DDLApplier.connect_raises Example.unreachable = Some (lit "connection refused")
  /\ DDLApplier.apply_ddl Example.unreachable [] [lit "a"]
     = (Raise (lit "connection refused"),
        {| database := [lit "a"]; log := []; trace := [] |})
  /\ DDLApplier.apply_ddl Example.unreachable [lit "  "; []] [lit "a"]
     = (Raise (lit "connection refused"),
        {| database := [lit "a"]; log := []; trace := [] |}).
Proof. repeat split; reflexivity. Qed.

(** With a connection scope that does not raise, the call is the one the
    statements about [Applier.apply_ddl] describe. *)
Lemma apply_ddl_when_connected {DB Exn : Type} (self : DDLApplier.Engine DB Exn)
    (stmts : list str) (db : DB) :
  DDLApplier.connect_raises self = None ->
  DDLApplier.begin_raises self = None ->
  (forall db', DDLApplier.commit_raises self db' = None) ->
  DDLApplier.apply_ddl self stmts db = apply_ddl (DDLApplier.target self) stmts db.
Proof.
  intros Hc Hb Hk. unfold DDLApplier.apply_ddl, apply_ddl. rewrite Hc, Hb.
  destruct (for_stmt _ stmts (opened db)) as [[[]|e] w]; [|done]. by rewrite Hk.
Qed.

End ApplierClaims.

(** * Further properties of [str.strip] *)

Section StripProperties.
Import Reference.

Lemma lstrip_split (s : str) :
  exists lead, s = lead ++ lstrip s /\ whitespace_only lead.
Proof.
  induction s as [|c s (lead & Hs & Hlead)]; simpl.
  - exists []. split; [done|constructor].
  - destruct (isspace c) eqn:Hc.
    + exists (c :: lead). split; [simpl; congruence | by constructor].
    + exists []. split; [done|constructor].
Qed.

Lemma lstrip_head (s : str) c t :
  lstrip s = c :: t -> isspace c = false.
Proof.
  induction s as [|d s IH]; simpl; [done|].
  destruct (isspace d) eqn:Hd; [done|]. by intros [= <- _].
Qed.

Lemma lstrip_keeps_text (l : str) c (r : str) :
  isspace c = false -> lstrip (l ++ c :: r) = lstrip l ++ c :: r.
Proof.
  intros Hc. induction l as [|d l IH]; simpl; [by rewrite Hc|].
  by destruct (isspace d).
Qed.

Lemma rstrip_split (s : str) :
  exists trail, s = rstrip s ++ trail /\ whitespace_only trail.
Proof.
  destruct (lstrip_split (rev s)) as (lead & Hs & Hlead).
  exists (rev lead). split.
  - unfold rstrip. rewrite <- rev_app_distr, <- Hs. by rewrite rev_involutive.
  - unfold whitespace_only in *. rewrite Forall_forall in *.
    intros c Hin. apply Hlead. by apply list_elem_of_In, in_rev, list_elem_of_In.
Qed.

Lemma rstrip_last (s : str) c :
  last (rstrip s) = Some c -> isspace c = false.
Proof.
  unfold rstrip. destruct (lstrip (rev s)) as [|d t] eqn:H; simpl; [done|].
  rewrite last_snoc. intros [= <-]. by apply lstrip_head in H.
Qed.

Lemma rstrip_keeps_head c (t : str) :
  isspace c = false -> exists t', rstrip (c :: t) = c :: t'.
Proof.
  intros Hc. unfold rstrip. simpl. rewrite lstrip_keeps_text by done.
  rewrite rev_app_distr. simpl. by eexists.
Qed.

(** [s.strip()] is the part of [s] between a whitespace-only beginning and
    a whitespace-only end, and it neither begins nor ends with whitespace. *)
Lemma strip_split (s : str) :
  exists lead trail,
    s = lead ++ strip s ++ trail
    /\ whitespace_only lead /\ whitespace_only trail /\ trimmed (strip s).
Proof.
  destruct (lstrip_split s) as (lead & Hs & Hlead).
  destruct (rstrip_split (lstrip s)) as (trail & Ht & Htrail).
  exists lead, trail. unfold strip. split; [by rewrite <- Ht|].
  split; [done|]. split; [done|]. split.
  - destruct (lstrip s) as [|c t] eqn:Hl; [done|].
    pose proof (lstrip_head _ _ _ Hl) as Hc.
    destruct (rstrip_keeps_head c t Hc) as [t' ->]. done.
  - destruct (last (rstrip (lstrip s))) as [c|] eqn:Hl; [|done].
    by apply rstrip_last in Hl.
Qed.

(** A string that ends with a semicolon is not blank. *)
Lemma terminated_is_not_blank (text : str) :
  truth (strip (text ++ lit ";")) = true.
Proof.
  destruct (truth (strip (text ++ lit ";"))) eqn:H; [done|].
  apply strip_falsy_iff in H. unfold whitespace_only in H.
  rewrite Forall_app in H. destruct H as [_ H]. by inversion H.
Qed.

End StripProperties.

(** * Further properties of the extractor *)

Section ExtractorExtras.
Import Extractor Reference.

Local Ltac unbind := unfold mbind, result_bind in *.

Lemma mapM_first_failure {E A B} (f : A -> result E B) (pre : list A) x post e :
  Forall (fun y => exists b, f y = Ok b) pre ->
  f x = Raise e ->
  mapM f (pre ++ x :: post) = Raise e.
Proof.
  intros Hpre Hx. induction Hpre as [|y pre [b Hy] _ IH]; simpl; unbind.
  - by rewrite Hx.
  - by rewrite Hy, IH.
Qed.

Lemma nonblank_all (stmts : list str) :
  Forall (fun s => truth (strip s) = true) stmts -> Applier.nonblank stmts = stmts.
Proof.
  induction 1 as [|s stmts Hs _ IH]; [done|].
  unfold Applier.nonblank in *. simpl. by rewrite Hs, IH.
Qed.

Lemma statement_terminated e table x s :
  statement e table x = Ok s -> exists text, s = text ++ lit ";".
Proof.
  destruct x; simpl; unbind;
    destruct (compiled _) as [text|]; intros [= <-]; by eexists.
Qed.

(** X1.  The statement of phase 1 is the compiler's text without the
    whitespace around it, followed by a semicolon: the text that
    [CreateTable] compiles to splits into a whitespace-only beginning, a
    core that neither begins nor ends with whitespace, and a
    whitespace-only end, and the call returns the core and [";"]. *)
Theorem base_ddl_is_trimmed_and_terminated (self : DDLExtractor) (table_name : str)
    (table : Table) (ddl : str) :
  (Table_autoload false table_name self).1 = Ok table ->
  compile_CreateTable (engine self) (clean_table table_name table) = Ok ddl ->
  exists lead core trail,
    ddl = lead ++ core ++ trail
    /\ whitespace_only lead /\ whitespace_only trail /\ trimmed core
    /\ (get_table_base_ddl table_name self).1 = Ok (core ++ lit ";").
Proof.
  intros Hload Hddl.
  destruct (strip_split ddl) as (lead & trail & Hs & Hlead & Htrail & Htrim).
  exists lead, (strip ddl), trail. repeat split; try done; try apply Htrim.
  unfold get_table_base_ddl.
  destruct (Table_autoload false table_name self) as [loaded self'].
  cbn [fst] in *. subst loaded. unbind. by rewrite Hddl.
Qed.

Lemma base_ddl_is_trimmed_and_terminated_witness :
  (Table_autoload false (lit "customers") (init Example.toy_engine)).1 = Ok Example.customers
  /\ compile_CreateTable Example.toy_engine (clean_table (lit "customers") Example.customers)
     = Ok ([10] ++ lit "CREATE TABLE customers (id INTEGER NOT NULL, name VARCHAR NOT NULL, PRIMARY KEY (id))" ++ [10; 10])
  /\ exists lead core trail,
      [10] ++ lit "CREATE TABLE customers (id INTEGER NOT NULL, name VARCHAR NOT NULL, PRIMARY KEY (id))" ++ [10; 10]
        = lead ++ core ++ trail
      /\ whitespace_only lead /\ whitespace_only trail /\ trimmed core
      /\ (get_table_base_ddl (lit "customers") (init Example.toy_engine)).1
         = Ok (core ++ lit ";").
Proof.
  split; [reflexivity|]. split; [reflexivity|].
  exact (base_ddl_is_trimmed_and_terminated (init Example.toy_engine) (lit "customers")
           Example.customers _ eq_refl eq_refl).
Defined.

(** X2.  What the extractor returns is never skipped by the applier: the
    statement of phase 1 and every statement of phase 2 end with a
    semicolon, so none of them is blank, and the list of phase 2 is its own
    list of non-blank entries. *)
Theorem extracted_statements_are_never_blank (self : DDLExtractor) (table_name : str) :
  match (get_table_base_ddl table_name self).1 with
  | Ok stmt => (exists text, stmt = text ++ lit ";") /\ truth (strip stmt) = true
  | Raise _ => True
  end
  /\ match (get_constraints_and_indexes_ddl table_name self).1 with
     | Ok stmts =>
         Forall (fun stmt => exists text, stmt = text ++ lit ";") stmts
         /\ Applier.nonblank stmts = stmts
     | Raise _ => True
     end.
Proof.
  split.
  - unfold get_table_base_ddl.
    destruct (Table_autoload false table_name self) as [[table|ex] self']; [|done].
    cbn [fst]. unbind. destruct (compiled _) as [ddl|]; [|done].
    split; [by eexists | apply terminated_is_not_blank].
  - unfold get_constraints_and_indexes_ddl.
    destruct (Table_autoload true table_name self) as [[table|ex] self']; [|done].
    cbn [fst]. unbind.
    destruct (ddl_statements (engine self) table) as [stmts|] eqn:H; [|done].
    rewrite ddl_statements_elements in H. apply mapM_Ok_Forall2 in H.
    assert (Hall : Forall (fun stmt => exists text, stmt = text ++ lit ";") stmts).
    { induction H as [|x s ? ? Hx _ IH]; constructor; [|done].
      by apply statement_terminated in Hx. }
    split; [done|]. apply nonblank_all.
    eapply Forall_impl; [exact Hall|].
    intros s [text ->]. apply terminated_is_not_blank.
Qed.

(** X3.  Phase 2 returns no partial list.  When the statements of the
    elements before some element compile and that element does not, the
    call raises the compiler's error for it, whatever comes after: an index
    that cannot be compiled hides every constraint of the table. *)
Theorem first_compile_error_is_raised (e : Engine) (table : Table)
    (pre : list Element) (x : Element) (post : list Element) (msg : str) :
  List.map IndexElement (tbl_indexes table)
    ++ List.map ConstraintElement (List.filter deferred (tbl_constraints table))
    = pre ++ x :: post ->
  Forall (fun y => exists stmt, statement e table y = Ok stmt) pre ->
  statement e table x = Raise (CompileError msg) ->
  ddl_statements e table = Raise (CompileError msg).
Proof.
  intros Hsplit Hpre Hx. rewrite ddl_statements_elements, Hsplit.
  by apply mapM_first_failure.
Qed.

Lemma first_compile_error_is_raised_witness :
  List.map IndexElement (tbl_indexes MoreExamples.events)
    ++ List.map ConstraintElement (List.filter deferred (tbl_constraints MoreExamples.events))
    = [IndexElement MoreExamples.ix_events_day]
      ++ IndexElement MoreExamples.unnamed_index
         :: [ConstraintElement MoreExamples.ck_events_day]
  /\ Forall (fun y => exists stmt, statement Example.toy_engine MoreExamples.events y = Ok stmt)
            [IndexElement MoreExamples.ix_events_day]
  /\ statement Example.toy_engine MoreExamples.events (IndexElement MoreExamples.unnamed_index)
     = Raise (CompileError (lit "index has no name"))
  /\ ddl_statements Example.toy_engine MoreExamples.events
     = Raise (CompileError (lit "index has no name")).
Proof.
  assert (Hpre : Forall (fun y => exists stmt,
                           statement Example.toy_engine MoreExamples.events y = Ok stmt)
                        [IndexElement MoreExamples.ix_events_day])
    by (constructor; [eexists; reflexivity | constructor]).
  split; [reflexivity|]. split; [exact Hpre|]. split; [reflexivity|].
  exact (first_compile_error_is_raised Example.toy_engine MoreExamples.events
           [IndexElement MoreExamples.ix_events_day]
           (IndexElement MoreExamples.unnamed_index)
           [ConstraintElement MoreExamples.ck_events_day]
           (lit "index has no name") eq_refl Hpre eq_refl).
Defined.

(** X4.  A primary-key constraint is never handed to the compiler by
    phase 2: two engines that compile indexes alike and constraints other
    than primary keys alike give the same result, whatever each would do
    with a primary key. *)
Theorem primary_keys_are_never_compiled (e1 e2 : Engine) (table : Table) :
  (forall name i, compile_CreateIndex e1 name i = compile_CreateIndex e2 name i) ->
  (forall name c, isinstance_PrimaryKeyConstraint c = false ->
                  compile_AddConstraint e1 name c = compile_AddConstraint e2 name c) ->
  ddl_statements e1 table = ddl_statements e2 table.
Proof.
  intros Hidx Hcon. unfold ddl_statements.
  assert (Hi : forall idxs acc, for_index e1 table idxs acc = for_index e2 table idxs acc).
  { induction idxs as [|i idxs IH]; intros acc; simpl; [done|]. rewrite Hidx. unbind.
    destruct (compiled _); [apply IH|done]. }
  assert (Hc : forall cs acc, for_const e1 table cs acc = for_const e2 table cs acc).
  { induction cs as [|c cs IH]; intros acc; simpl; [done|].
    destruct (isinstance_PrimaryKeyConstraint c) eqn:Hpk; [apply IH|].
    rewrite (Hcon _ _ Hpk). unbind. destruct (compiled _); [apply IH|done]. }
  rewrite Hi. unbind. destruct (for_index e2 table _ _); [apply Hc|done].
Qed.

Lemma primary_keys_are_never_compiled_witness :
  (forall name i, compile_CreateIndex Example.toy_engine name i
                  = compile_CreateIndex MoreExamples.strict_engine name i)
  /\ (forall name c, isinstance_PrimaryKeyConstraint c = false ->
                     compile_AddConstraint Example.toy_engine name c
                     = compile_AddConstraint MoreExamples.strict_engine name c)
  /\ compile_AddConstraint MoreExamples.strict_engine (lit "orders")
       (Example.primary_key_of ["id"%string])
     = Raise (lit "primary key already defined")
  /\ ddl_statements Example.toy_engine Example.orders
     = ddl_statements MoreExamples.strict_engine Example.orders.
Proof.
  assert (H1 : forall name i, compile_CreateIndex Example.toy_engine name i
                  = compile_CreateIndex MoreExamples.strict_engine name i)
    by reflexivity.
  assert (H2 : forall name c, isinstance_PrimaryKeyConstraint c = false ->
                     compile_AddConstraint Example.toy_engine name c
                     = compile_AddConstraint MoreExamples.strict_engine name c).
  { intros name c Hc. simpl. rewrite Hc. reflexivity. }
  split; [exact H1|]. split; [exact H2|]. split; [reflexivity|].
  exact (primary_keys_are_never_compiled _ _ Example.orders H1 H2).
Defined.

End ExtractorExtras.

Section ExtractorRegistry.
Import Extractor.

Local Ltac unbind := unfold mbind, result_bind in *.

(** X5.  Once a table has been loaded by either call, [get_table_base_ddl]
    renders the registered table and reflects nothing: on any extractor
    that holds the same registry, whatever its catalog has become, it
    returns the compilation of the clean table of the table loaded before,
    and it leaves that extractor as it is. *)
Theorem base_ddl_reuses_the_registered_table (self later : DDLExtractor)
    (extend_existing : bool) (table_name : str) (table : Table) :
  (Table_autoload extend_existing table_name self).1 = Ok table ->
  metadata later = metadata (Table_autoload extend_existing table_name self).2 ->
  get_table_base_ddl table_name later =
    ((ddl ← compiled (compile_CreateTable (engine later) (clean_table table_name table));
      Ok (strip ddl ++ lit ";")),
     later).
Proof.
  intros Hload Hmeta. apply Table_autoload_registers in Hload.
  rewrite <- Hmeta in Hload.
  unfold get_table_base_ddl, Table_autoload. by rewrite Hload.
Qed.

Lemma base_ddl_reuses_the_registered_table_witness :
  (Table_autoload true (lit "orders") (init Example.toy_engine)).1 = Ok Example.orders
  /\ metadata {| engine := MoreExamples.emptied_engine;
                 metadata := <[lit "orders" := Example.orders]> ∅ |}
     = metadata (Table_autoload true (lit "orders") (init Example.toy_engine)).2
  /\ autoload MoreExamples.emptied_engine None (lit "orders") = None
  /\ (get_table_base_ddl (lit "orders")
        {| engine := MoreExamples.emptied_engine;
           metadata := <[lit "orders" := Example.orders]> ∅ |}).1
     = Ok (lit "CREATE TABLE orders (id INTEGER NOT NULL, customer_id INTEGER, total NUMERIC NOT NULL DEFAULT 0, PRIMARY KEY (id));").
Proof.
  split; [reflexivity|]. split; [reflexivity|]. split; [reflexivity|].
  exact (eq_trans
           (f_equal fst
              (base_ddl_reuses_the_registered_table (init Example.toy_engine)
                 {| engine := MoreExamples.emptied_engine;
                    metadata := <[lit "orders" := Example.orders]> ∅ |}
                 true (lit "orders") Example.orders eq_refl eq_refl))
           eq_refl).
Defined.

(** X7.  When reflection of the table fails, the exception is not caught:
    [get_constraints_and_indexes_ddl] raises [NoSuchTableError] and leaves
    the extractor as it was, also for a table it holds in its registry;
    [get_table_base_ddl] does the same for a table not yet registered. *)
Theorem failed_reflection_raises_and_changes_nothing (self : DDLExtractor)
    (table_name : str) :
  autoload (engine self) (metadata self !! table_name) table_name = None ->
  get_constraints_and_indexes_ddl table_name self
    = (Raise (NoSuchTableError table_name), self)
  /\ (metadata self !! table_name = None ->
      get_table_base_ddl table_name self = (Raise (NoSuchTableError table_name), self)).
Proof.
  intros H. unfold get_constraints_and_indexes_ddl, get_table_base_ddl, Table_autoload.
  destruct (metadata self !! table_name) as [t|]; rewrite H; [done|].
  by split.
Qed.

Lemma failed_reflection_raises_and_changes_nothing_witness :
  autoload MoreExamples.emptied_engine
    (metadata {| engine := MoreExamples.emptied_engine;
                 metadata := <[lit "orders" := Example.orders]> ∅ |} !! lit "orders")
    (lit "orders") = None
  /\ get_constraints_and_indexes_ddl (lit "orders")
       {| engine := MoreExamples.emptied_engine;
          metadata := <[lit "orders" := Example.orders]> ∅ |}
     = (Raise (NoSuchTableError (lit "orders")),
        {| engine := MoreExamples.emptied_engine;
           metadata := <[lit "orders" := Example.orders]> ∅ |}).
Proof.
  split; [reflexivity|].
  exact (proj1 (failed_reflection_raises_and_changes_nothing
                  {| engine := MoreExamples.emptied_engine;
                     metadata := <[lit "orders" := Example.orders]> ∅ |}
                  (lit "orders") eq_refl)).
Defined.

(** X8.  The table of phase 1 is built from the columns alone.  Its only
    constraint is an unnamed primary key over the columns flagged
    [primary_key], in column order; two reflected tables with the same
    columns have the same clean table, so the name and the column order of
    the reflected primary-key constraint, like every index and every other
    constraint, leave no trace in phase 1. *)
Theorem base_table_is_built_from_columns_only (table_name : str) (table : Table) :
  tbl_name (clean_table table_name table) = table_name
  /\ tbl_constraints (clean_table table_name table)
     = [implicit_primary_key
          (List.map col_name (List.filter col_primary_key (tbl_columns table)))]
  /\ forall other : Table,
       tbl_columns other = tbl_columns table ->
       clean_table table_name other = clean_table table_name table.
Proof.
  rewrite clean_table_eq. split; [done|]. split; [done|].
  intros other H. rewrite clean_table_eq. by rewrite H.
Qed.

End ExtractorRegistry.

(** * Further properties of the applier *)

Section ApplierExtras.
Import Applier Reference.
Context {DB Exn : Type}.
Implicit Types (eng : Engine DB Exn) (w : World DB) (stmt : str).

Lemma apply_ddl_database eng (stmts : list str) (db : DB) :
  database (apply_ddl eng stmts db).2 =
  match (for_stmt eng stmts (opened db)).1 with
  | Ok _ => database (for_stmt eng stmts (opened db)).2
  | Raise _ =>
      if transactional_ddl eng then db else database (for_stmt eng stmts (opened db)).2
  end.
Proof.
  unfold apply_ddl. by destruct (for_stmt eng stmts (opened db)) as [[[]|e] w].
Qed.

(** The loop against the plain sequential execution of the non-blank
    entries. *)
Lemma for_stmt_execute_all eng (stmts : list str) w :
  match execute_all eng (nonblank stmts) (database w) with
  | Ok db' =>
      (for_stmt eng stmts w).1 = Ok tt /\ database (for_stmt eng stmts w).2 = db'
  | Raise e => (for_stmt eng stmts w).1 = Raise e
  end.
Proof.
  revert w. induction stmts as [|stmt stmts IH]; intros w; simpl; [done|].
  unfold nonblank. simpl. destruct (truth (strip stmt)); simpl; [|apply IH].
  destruct (execute eng stmt (database w)) as [db'|e] eqn:Hx; [|done].
  apply (IH (set_database db' (emit (Execute stmt) (logger_info (info_message stmt) w)))).
Qed.

(** The loop reads nothing of its state but the database. *)
Lemma for_stmt_database_only eng (stmts : list str) w w' :
  database w = database w' ->
  (for_stmt eng stmts w).1 = (for_stmt eng stmts w').1
  /\ database (for_stmt eng stmts w).2 = database (for_stmt eng stmts w').2.
Proof.
  revert w w'. induction stmts as [|stmt stmts IH]; intros w w' Hdb; simpl; [done|].
  destruct (truth (strip stmt)); simpl; [|by apply IH].
  rewrite Hdb. destruct (execute eng stmt (database w')); [by apply IH|done].
Qed.


(** X11.  The announcement of a statement shows its first 50 code points
    only: an INFO message has 18 code points plus at most 50 of the
    statement, and it is the message of the statement cut at 50. *)
Theorem announcement_is_cut_at_50 (stmt : str) :
  length (info_message stmt) = (18 + Nat.min 50 (length stmt))%nat
  /\ info_message stmt = info_message (take 50 stmt).
Proof.
  unfold info_message, slice_to. split.
  - rewrite !length_app, length_take. simpl. lia.
  - by rewrite take_take.
Qed.

(** X12.  One call against two.  When a first sequence applies without
    error, applying it together with a second sequence in one call raises
    or returns as applying the second sequence in a call of its own would;
    the database is the same too, except after a failure on a target with
    transactional DDL: the single call is back at the initial database,
    while the second of two calls is back at the database the first one
    committed. *)
Theorem one_call_against_two eng (first second : list str) (db : DB) :
  (apply_ddl eng first db).1 = Ok tt ->
  (apply_ddl eng (first ++ second) db).1
    = (apply_ddl eng second (database (apply_ddl eng first db).2)).1
  /\ match (apply_ddl eng (first ++ second) db).1 with
     | Ok _ =>
         database (apply_ddl eng (first ++ second) db).2
         = database (apply_ddl eng second (database (apply_ddl eng first db).2)).2
     | Raise _ =>
         if transactional_ddl eng then
           database (apply_ddl eng (first ++ second) db).2 = db
           /\ database (apply_ddl eng second (database (apply_ddl eng first db).2)).2
              = database (apply_ddl eng first db).2
         else
           database (apply_ddl eng (first ++ second) db).2
           = database (apply_ddl eng second (database (apply_ddl eng first db).2)).2
     end.
Proof.
  rewrite !apply_ddl_result, !apply_ddl_database. intros H1. rewrite H1.
  rewrite for_stmt_app.
  destruct (for_stmt eng first (opened db)) as [[[]|e1] w1] eqn:Hfirst; [|done].
  cbn [fst snd].
  destruct (for_stmt_database_only eng second w1 (opened (database w1)) eq_refl)
    as [Hres Hdb].
  rewrite Hres, Hdb. split; [done|].
  destruct (for_stmt eng second (opened (database w1))).1; [done|].
  by destruct (transactional_ddl eng).
Qed.

End ApplierExtras.

Section ApplierExtrasWitnesses.
Import Applier Reference.


Lemma one_call_against_two_witness :
  (apply_ddl (Example.toy_target true) [lit "CREATE a"] []).1 = Ok tt
  /\ (apply_ddl (Example.toy_target true) ([lit "CREATE a"] ++ [lit "CREATE a"]) []).1
     = (apply_ddl (Example.toy_target true) [lit "CREATE a"]
          (database (apply_ddl (Example.toy_target true) [lit "CREATE a"] []).2)).1
  /\ database (apply_ddl (Example.toy_target true) ([lit "CREATE a"] ++ [lit "CREATE a"]) []).2
     = []
  /\ database (apply_ddl (Example.toy_target true) [lit "CREATE a"]
          (database (apply_ddl (Example.toy_target true) [lit "CREATE a"] []).2)).2
     = [lit "a"].
Proof.
  split; [reflexivity|].
  split; [exact (proj1 (one_call_against_two (Example.toy_target true)
                          [lit "CREATE a"] [lit "CREATE a"] [] eq_refl))|].
  split; reflexivity.
Defined.

End ApplierExtrasWitnesses.
